(** * Order tracing for NIRISS (eureka/S3_data_reduction/niriss.py) and the
      EPF parameter class (eureka/lib/readEPF.py): a shallow embedding.

    Integer arrays ([dtype=int]) are lists of [Z]; array indices are [nat];
    float images are maps from (row, column) to [Q].  numpy's mean and
    standard deviation are taken with their real-number meaning, and each
    comparison against them is decided exactly in integer arithmetic. *)

From Stdlib Require Import ZArith QArith Lia Bool String Sorted Reals Lra Psatz.
From stdpp Require Import base list sorting strings gmap.

Local Open Scope Z_scope.

(** ** numpy primitives on one-dimensional integer arrays *)

Module Np.

(** [np.diff(arr)]: entry [i] is [arr[i+1] - arr[i]]. *)
Definition diff (arr : list Z) : list Z :=
  zip_with Z.sub (drop 1 arr) arr.

Definition sum (l : list Z) : Z := foldr Z.add 0 l.

Definition sumsq (l : list Z) : Z := foldr (fun d acc => d * d + acc) 0 l.

(** [np.where(mask)[0]]: the indices at which a boolean array is true, in
    increasing order.  [k] is the index of the head. *)
Fixpoint where_from (k : nat) (mask : list bool) : list nat :=
  match mask with
  | [] => []
  | b :: rest => if b then k :: where_from (S k) rest else where_from (S k) rest
  end.

Definition where_ (mask : list bool) : list nat := where_from 0 mask.

(** [arr[idx] = v] for an index array [idx] (all indices in range). *)
Definition assign_at (idx : list nat) (v : Z) (arr : list Z) : list Z :=
  foldl (fun a i => <[i := v]> a) arr idx.

(** [arr[k:] = v]. *)
Definition assign_from (k : nat) (v : Z) (arr : list Z) : list Z :=
  take k arr ++ replicate (length arr - k) v.

(** [np.arange(0, n, 1)]. *)
Definition arange (n : nat) : list Z := map Z.of_nat (seq 0 n).

(** [a[mask]] for a boolean mask of the length of [a]. *)
Fixpoint select {A} (mask : list bool) (a : list A) : list A :=
  match mask, a with
  | b :: mask', x :: a' => if b then x :: select mask' a' else select mask' a'
  | _, _ => []
  end.

(** Integer part of the mean of a non-empty array of row indices, as stored
    into an integer array ([centers[i] = np.nanmean(inds)]). *)
Definition mean_int (inds : list nat) : Z :=
  Z.of_nat (foldr Nat.add 0%nat inds) / Z.of_nat (length inds).

End Np.

(** ** Outlier removal, [mask_method_one.rm_outliers] *)

(** [np.abs(d) >= np.nanmean(diff) + 3*np.nanstd(diff)].  With [n] the number
    of differences, [S] their sum and [Q] the sum of their squares, the mean
    is [S/n] and the standard deviation [sqrt(n*Q - S*S)/n], so the test is
    [n*|d| - S >= 3*sqrt(n*Q - S*S)]. *)
Definition beyond_3sigma (diff : list Z) (d : Z) : bool :=
  let n := Z.of_nat (length diff) in
  let t := n * Z.abs d - Np.sum diff in
  (0 <=? t) && (9 * (n * Np.sumsq diff - Np.sum diff * Np.sum diff) <=? t * t).

(** [np.nanmean] and [np.nanstd] of an integer array, over the reals; the
    integer test above is checked against them below. *)
Definition mean_R (ds : list Z) : R :=
  (IZR (Np.sum ds) / INR (length ds))%R.

Definition sqdev_R (m : R) (ds : list Z) : R :=
  foldr (fun d acc => ((IZR d - m) * (IZR d - m) + acc)%R) 0%R ds.

Definition std_R (ds : list Z) : R :=
  sqrt (sqdev_R (mean_R ds) ds / INR (length ds)).

Definition outliers (arr : list Z) : list nat :=
  let diff := Np.diff arr in
  Np.where_ (map (beyond_3sigma diff) diff).

Definition rm_outliers (arr : list Z) : list Z :=
  Np.assign_at (outliers arr) 0 arr.

(** The pass as the specification words it: the test is strict, and the
    entry reset is the later column of the flagged difference. *)
Definition strictly_beyond_3sigma (diff : list Z) (d : Z) : bool :=
  let n := Z.of_nat (length diff) in
  let t := n * Z.abs d - Np.sum diff in
  (0 <? t) && (9 * (n * Np.sumsq diff - Np.sum diff * Np.sum diff) <? t * t).



(** ** Exceptions, fallible computations and diagnostics *)

Inductive exn : Set :=
| IndexError
| ValueError
| TypeError
| OSError
| LinAlgError
| AttributeError.

(** A computation that may raise. *)
Definition res (A : Type) : Type := exn + A.

#[global] Instance res_ret : MRet res := fun _ a => inr a.
#[global] Instance res_bind : MBind res := fun _ _ f m =>
  match m with
  | inl e => inl e
  | inr a => f a
  end.

(** What a run shows on screen: one event per figure. *)
Inductive event : Set := Figure (title : string).

(** A computation that may raise and may draw figures on the way. *)
Definition M (A : Type) : Type := list event * res A.

#[global] Instance M_ret : MRet M := fun _ a => ([], inr a).
#[global] Instance M_bind : MBind M := fun _ _ f m =>
  match m with
  | (shown, inl e) => (shown, inl e)
  | (shown, inr a) => let '(shown', r) := f a in (shown ++ shown', r)
  end.

Definition lift {A} (r : res A) : M A := ([], r).
Definition show (title : string) : M unit := ([Figure title], inr tt).
Definition when (b : bool) (m : M unit) : M unit := if b then m else mret tt.

(** The outcome of a run, diagnostics dropped. *)
Definition outcome {A} (m : M A) : res A := m.2.

(** ** Two-dimensional arrays *)

Record array2 (A : Type) : Type := Array2 {
  nrows : nat;
  ncols : nat;
  pix : nat -> nat -> A   (* row, column *)
}.
Arguments Array2 {A} _ _ _.
Arguments nrows {A} _.
Arguments ncols {A} _.
Arguments pix {A} _ _ _.

(** [img[:, i]]. *)
Definition column {A} (img : array2 A) (i : nat) : list A :=
  map (fun r => pix img r i) (seq 0 (nrows img)).

(** [img[:150, :500]]. *)
Definition crop {A} (h w : nat) (img : array2 A) : array2 A :=
  Array2 (Nat.min h (nrows img)) (Nat.min w (ncols img)) (pix img).

Definition Qgtb (a b : Q) : bool :=
  match Qcompare a b with Gt => true | _ => false end.

(** The frames a run reads.  [data.data] is a stack of integrations and
    [data.f277] a stack of calibration exposures of one detector geometry
    each; the tracing code only looks at their projections along the
    stacking axes, [np.nanmax] and [np.nansum], which keep the shape. *)
Record Data : Type := {
  sci_rows : nat;
  sci_cols : nat;
  sci_max : nat -> nat -> Q;    (* np.nanmax(data.data, axis=0) *)
  sci_sum : nat -> nat -> Q;    (* np.nansum(data.data, axis=0) *)
  f277_rows : nat;
  f277_cols : nat;
  f277_max : nat -> nat -> Q;   (* np.nanmax(data.f277, axis=(0,1)) *)
  f277_sum : nat -> nat -> Q    (* np.nansum(data.f277, axis=(0,1)) *)
}.

(** The trace table: the columns ['x'], ['order_1'] and ['order_2']; its
    rows are the entries of these columns. *)
Record Table : Type := {
  tab_x : list Z;
  tab_order_1 : list Q;
  tab_order_2 : list Q
}.

(** [np.poly1d(poly)(x)], coefficients from the highest degree down. *)
Definition poly1d (poly : list Q) (x : Z) : Q :=
  foldl (fun acc c => acc * inject_Z x + c)%Q 0%Q poly.

(** [a[mask]] raises when the mask and the array differ in length. *)
Definition bool_index {A} (a : list A) (mask : list bool) : res (list A) :=
  if (length a =? length mask)%nat then inr (Np.select mask a) else inl IndexError.

(** Python's [l[start:stop]] for integer bounds of either sign. *)
Definition py_clip (len : nat) (k : Z) : nat :=
  if k <? 0 then Z.to_nat (Z.max 0 (Z.of_nat len + k))
  else Nat.min len (Z.to_nat k).

Definition py_slice {A} (start stop : Z) (l : list A) : list A :=
  let s := py_clip (length l) start in
  let e := py_clip (length l) stop in
  take (e - s) (drop s l).

(** [a[t]] for a tuple [t] of index arrays: the empty tuple selects the
    whole array, a 1-tuple picks the listed entries. *)
Definition index_tuple {A} (a : list A) (t : list (list nat)) : res (list A) :=
  match t with
  | [] => inr a
  | [idx] => mapM (fun i => match a !! i with Some v => inr v | None => inl IndexError end) idx
  | _ => inl IndexError
  end.

(** ** The tracing routines of niriss.py *)

Section Niriss.

(** What the module computes through skimage, scipy, numpy's least squares,
    ccdproc and astropy.  [image_filtering] (with its default [radius] and
    [gf]) is a chain of float image filters, [filters.rank.maximum],
    [gaussian_filter], [filters.sobel] and [feature.canny]; it returns the
    edge mask [z] and the smoothed image [g], both of the shape of its
    argument, so only their entries are taken from it.  [polyfit] is
    [np.polyfit(x, y, deg)] with the coefficients it returns, [find_peaks]
    is scipy's peak finder with its [height] and [distance] arguments,
    [cosmicray_lacosmic] is ccdproc's cleaner (shape kept as well), and
    [write_csv] is astropy's [Table.write]. *)
Variable image_filtering :
  array2 Q -> res ((nat -> nat -> bool) * (nat -> nat -> Q)).
Variable polyfit : list Z -> list Z -> nat -> res (list Q).
Variable find_peaks : list Q -> Z -> nat -> list nat.
Variable cosmicray_lacosmic : array2 Q -> res (nat -> nat -> Q).
Variable write_csv : string -> Table -> res unit.

Definition simplify_niriss_img (d : Data) (isplots : Z) : M (array2 Q) :=
  let perc := Array2 (sci_rows d) (sci_cols d) (sci_max d) in
  '(_, g) ← lift (image_filtering perc);
  when (6 <=? isplots) (show "Canny Edge, Gaussian Blurred");;
  mret (Array2 (nrows perc) (ncols perc) g).

(** *** [f277_mask] *)

(** [img = np.nanmax(data.f277, axis=(0,1))]. *)
Definition f277_img (d : Data) : array2 Q :=
  Array2 (f277_rows d) (f277_cols d) (f277_max d).

(** [(inds[1], inds[-2])] when [len(inds) > 1]. *)
Definition span (inds : list nat) : option (nat * nat) :=
  if (1 <? length inds)%nat then
    match inds !! 1%nat, inds !! (length inds - 2)%nat with
    | Some lo, Some hi => Some (lo, hi)
    | _, _ => None
    end
  else None.

Definition f277_spans (mask : array2 bool) : list (option (nat * nat)) :=
  map (fun i => span (Np.where_ (column mask i))) (seq 0 (ncols mask)).

(** [new_mask[inds[1]:inds[-2], i] = True] on a zero array of the shape of
    the calibration image. *)
Definition f277_new_mask (img : array2 Q)
    (spans : list (option (nat * nat))) : array2 Q :=
  Array2 (nrows img) (ncols img) (fun r c =>
    match spans !! c with
    | Some (Some (lo, hi)) => if (lo <=? r)%nat && (r <? hi)%nat then 1%Q else 0%Q
    | _ => 0%Q
    end).

(** [mid]: row [i] is [[i, (inds[1]+inds[-2])/2]] stored as integers, or
    stays [[0, 0]]. *)
Definition f277_mid (spans : list (option (nat * nat))) : list (Z * Z) :=
  imap (fun i sp =>
    match sp with
    | Some (lo, hi) => (Z.of_nat i, Z.of_nat (lo + hi) / 2)
    | None => (0, 0)
    end) spans.

(** [q = (mid[:,0] < 420) & (mid[:,1] > 0) & (mid[:,0] > 0)]. *)
Definition anchor_ok (p : Z * Z) : bool :=
  (p.1 <? 420) && (0 <? p.2) && (0 <? p.1).

Definition f277_mask (d : Data) (isplots : Z) : M (array2 Q * list (Z * Z)) :=
  let img := f277_img d in
  let sub := crop 150 500 img in
  '(z, _) ← lift (image_filtering sub);
  let mask := Array2 (nrows sub) (ncols sub) z in
  let spans := f277_spans mask in
  let new_mask := f277_new_mask img spans in
  let mid := f277_mid spans in
  let q := map anchor_ok mid in
  when (5 <=? isplots) (show "F277 Mask");;
  mret (new_mask, Np.select q mid).

(** *** [mask_method_one] *)

Definition find_centers (img : array2 Q) (cutends : option nat) : res (list Z) :=
  if (nrows img =? 0)%nat then inl IndexError   (* img[0] *)
  else
    let centers :=
      map (fun i =>
             let inds := Np.where_ (map (fun v => Qgtb v 0) (column img i)) in
             if (0 <? length inds)%nat then Np.mean_int inds else 0)
          (seq 0 (ncols img)) in
    let centers := rm_outliers centers in
    inr match cutends with
        | Some k => Np.assign_from k 0 centers
        | None => centers
        end.

(** The points handed to [np.polyfit] by [clean_and_fit]. *)
Definition clean (x1 x2 y1 y2 : list Z) : res (list Z * list Z) :=
  x1' ← bool_index x1 (map (Z.ltb 0) y1);
  let y1' := Np.select (map (Z.ltb 0) y1) y1 in
  x2' ← bool_index x2 (map (Z.ltb 0) y2);
  let y2' := Np.select (map (Z.ltb 0) y2) y2 in
  mret (x1' ++ x2', y1' ++ y2').

Definition clean_and_fit (x1 x2 y1 y2 : list Z) : res (Z -> Q) :=
  pts ← clean x1 x2 y1 y2;
  poly ← polyfit pts.1 pts.2 4;
  mret (poly1d poly).

(** [inds = np.where(g[:,i] > 100)[0]] and its two bands. *)
Definition inds_above (g : array2 Q) (i : nat) : list nat :=
  Np.where_ (map (fun v => Qgtb v 100) (column g i)).

Definition inds_1 (g : array2 Q) (i : nat) : list nat :=
  let inds := inds_above g i in
  Np.select (map (fun r => r <=? 78)%nat inds) inds.

Definition inds_2 (g : array2 Q) (i : nat) : list nat :=
  let inds := inds_above g i in
  Np.select (map (fun r => 80 <=? r)%nat inds) inds.

Definition band_center (inds_k : list nat) : Z :=
  if (1 <=? length inds_k)%nat then Np.mean_int inds_k else 0.

Definition gcenters_1 (g : array2 Q) : list Z :=
  map (fun i => band_center (inds_1 g i)) (seq 0 (ncols g)).

Definition gcenters_2 (g : array2 Q) : list Z :=
  map (fun i => band_center (inds_2 g i)) (seq 0 (ncols g)).

(** [x[x>800], gcenters_1[x>800]]. *)
Definition science_1 (x gcenters : list Z) : list Z * list Z :=
  let keep := map (fun c => 800 <? c) x in
  (Np.select keep x, Np.select keep gcenters).

(** [x[(x>800) & (x<1800)], gcenters_2[(x>800) & (x<1800)]]. *)
Definition science_2 (x gcenters : list Z) : list Z * list Z :=
  let keep := map (fun c => (800 <? c) && (c <? 1800)) x in
  (Np.select keep x, Np.select keep gcenters).

(** [g+f] needs shapes that broadcast. *)
Definition add_shapes {A B} (a : array2 A) (b : array2 B) : res unit :=
  let ok (m n : nat) := (m =? n)%nat || (m =? 1)%nat || (n =? 1)%nat in
  if ok (nrows a) (nrows b) && ok (ncols a) (ncols b) then inr tt
  else inl ValueError.

Definition mask_method_one (d : Data) (isplots : Z) (save : bool) : M Table :=
  g ← simplify_niriss_img d isplots;
  '(f, _) ← f277_mask d 0;
  _ ← lift (find_centers g None);
  f_centers ← lift (find_centers f (Some 430%nat));
  let gcenters_1 := rm_outliers (gcenters_1 g) in
  let gcenters_2 := rm_outliers (gcenters_2 g) in
  let x := Np.arange (length gcenters_1) in
  let s1 := science_1 x gcenters_1 in
  let s2 := science_2 x gcenters_2 in
  fit1 ← lift (clean_and_fit x s1.1 f_centers s1.2);
  fit2 ← lift (clean_and_fit x s2.1 f_centers s2.2);
  when (5 <=? isplots)
       (show "Order Approximation";; lift (add_shapes g f));;
  let tab := {| tab_x := x; tab_order_1 := map fit1 x; tab_order_2 := map fit2 x |} in
  (if save then lift (write_csv "niriss_order_fits_method1.csv" tab) else mret tt);;
  mret tab.

(** *** [mask_method_two] *)

(** Twice the median of an integer array. *)
Definition median2 (l : list Z) : Z :=
  let s := merge_sort Z.le l in
  let n := length s in
  if Nat.even n
  then default 0 (s !! (n / 2 - 1)%nat) + default 0 (s !! (n / 2)%nat)
  else 2 * default 0 (s !! (n / 2)%nat).

(** [np.abs(d) <= np.nanmedian(diff) + 2*np.nanstd(diff)], decided as for
    [beyond_3sigma]. *)
Definition within_2sigma (diff : list Z) (d : Z) : bool :=
  let n := Z.of_nat (length diff) in
  let t := n * (2 * Z.abs d - median2 diff) in
  (t <=? 0) || (t * t <=? 16 * (n * Np.sumsq diff - Np.sum diff * Np.sum diff)).

(** The [height] bound of column [i] ([double_peaked = [500, 700, 1850]]). *)
Definition height_for (i : nat) : Z :=
  if (i <? 500)%nat then 2000 else if (i <? 700)%nat then 100 else 5000.

(** One turn of the loop over columns: the row written to [f277_peaks[i]]
    and the row written to [peaks[i]]. *)
Definition column_peaks (summed_f277 new_ccd : array2 Q) (i : nat)
  : res ((Z * Z) * list Z) :=
  if (ncols summed_f277 <=? i)%nat then inl IndexError   (* summed_f277[:,i] *)
  else
    let fp := find_peaks (column summed_f277 i) 100000 10 in
    let f277_row :=
      match fp with
      | [a; b] => (Z.of_nat a, Z.of_nat b)
      | _ => (0, 0)
      end in
    let p := map Z.of_nat (find_peaks (column new_ccd i) (height_for i) 10) in
    let p := if (i <? 900)%nat then Np.select (map (Z.ltb 40) p) p else p in
    if (6 <? length p)%nat then inl ValueError   (* peaks[i][:len(p)] = p *)
    else inr (f277_row, p ++ replicate (6 - length p) 0).

(** The points handed to [np.polyfit] for boundary [ind]. *)
Definition boundary_points (xf : list Z) (f277_peaks : list (Z * Z))
    (x : list Z) (peaks : list (list Z)) (ind : nat) : res (list Z * list Z) :=
  let col := map (fun row => default 0 (row !! ind)) peaks in
  let q := map (Z.ltb 0) col in
  let diff := Np.diff (Np.select q col) in
  let good := [Np.where_ (map (within_2sigma diff) diff)] in   (* a 1-tuple *)
  let good := py_slice 5 (-5) good in
  y ← index_tuple (Np.select q col) good;
  xg ← index_tuple (Np.select q x) good;
  xf_last ← match last xf with Some c => inr c | None => inl IndexError end;
  let beyond := map (Z.ltb xf_last) xg in
  let y := Np.select beyond y in
  let cutoff := if (ind <? 2)%nat then -1 else 250 in
  let xtot := py_slice 0 cutoff xf ++ Np.select beyond xg in
  let side := if (ind =? 0)%nat || (ind =? 2)%nat then fst else snd in
  let ytot := py_slice 0 cutoff (map side f277_peaks) ++ y in
  mret (xtot, ytot).

Definition boundary_fit (xf : list Z) (f277_peaks : list (Z * Z))
    (x : list Z) (peaks : list (list Z)) (ind : nat) : res (Z -> Q) :=
  pts ← boundary_points xf f277_peaks x peaks ind;
  poly ← polyfit pts.1 pts.2 4;
  mret (poly1d poly).

(** The calibration boundaries after the zeros are removed: [xf] and
    [f277_peaks]. *)
Definition f277_boundaries (ncols_f277 : nat) (rows : list (Z * Z))
  : list Z * list (Z * Z) :=
  let f277_peaks := rows ++ replicate (ncols_f277 - length rows) (0, 0) in
  let good := map (fun r => negb (r.1 =? 0)) f277_peaks in
  (Np.select good (Np.arange ncols_f277), Np.select good f277_peaks).

(** The first half of [mask_method_two], up to the removal of the zeros:
    [xf], [f277_peaks], [x] and [peaks]. *)
Definition peak_tables (d : Data)
  : res (list Z * list (Z * Z) * list Z * list (list Z)) :=
  let summed := Array2 (sci_rows d) (sci_cols d) (sci_sum d) in
  cleaned ← cosmicray_lacosmic summed;
  let new_ccd_no_premask := Array2 (nrows summed) (ncols summed) cleaned in
  let summed_f277 := Array2 (f277_rows d) (f277_cols d) (f277_sum d) in
  rows ← mapM (column_peaks summed_f277 new_ccd_no_premask)
              (seq 0 (ncols summed));
  let peaks := map snd rows in
  let '(xf, f277_peaks) := f277_boundaries (ncols summed_f277) (map fst rows) in
  let x := Np.arange (ncols new_ccd_no_premask) in
  mret (xf, f277_peaks, x, peaks).

Definition mask_method_two (d : Data) (isplots : Z) (save : bool) : M Table :=
  '(xf, f277_peaks, x, peaks) ← lift (peak_tables d);
  fit0 ← lift (boundary_fit xf f277_peaks x peaks 0);
  fit1 ← lift (boundary_fit xf f277_peaks x peaks 1);
  fit2 ← lift (boundary_fit xf f277_peaks x peaks 2);
  fit3 ← lift (boundary_fit xf f277_peaks x peaks 3);
  when (5 <=? isplots) (show "Order Approximation");;
  let tab := {| tab_x := x;
                tab_order_1 := map (fun c => (fit0 c + fit1 c) / 2)%Q x;
                tab_order_2 := map (fun c => (fit2 c + fit3 c) / 2)%Q x |} in
  (if save then lift (write_csv "niriss_order_fits_method2.csv" tab) else mret tt);;
  mret tab.

End Niriss.

(** ** Small frames and library stand-ins, to run the routines *)

Module Sample.

(** An [image_filtering] for small frames: the edge mask marks the positive
    pixels and nothing is smoothed. *)
Definition image_filtering (img : array2 Q)
  : res ((nat -> nat -> bool) * (nat -> nat -> Q)) :=
  inr (fun r c => Qgtb (pix img r c) 0, pix img).

(** A fitter with [np.polyfit]'s argument checks (an empty [x] and arrays
    of different lengths are refused); it answers with the constant
    polynomial through the mean of [y]. *)
Definition polyfit (x y : list Z) (deg : nat) : res (list Q) :=
  if (length x =? 0)%nat then inl TypeError
  else if negb (length x =? length y)%nat then inl TypeError
  else inr (replicate deg 0%Q
            ++ [(inject_Z (Np.sum y) / inject_Z (Z.of_nat (length y)))%Q]).

(** A peak finder: the strict local maxima of at least the given height. *)
Definition find_peaks (col : list Q) (height : Z) (distance : nat) : list nat :=
  Np.where_ (imap (fun i v =>
    match i with
    | O => false
    | S j =>
        match col !! j, col !! S i with
        | Some u, Some w =>
            Qgtb v u && Qgtb v w && negb (Qgtb (inject_Z height) v)
        | _, _ => false
        end
    end) col).

Definition cosmicray_lacosmic (img : array2 Q) : res (nat -> nat -> Q) :=
  inr (pix img).

Definition write_csv (file : string) (tab : Table) : res unit := inr tt.

(** The entries of a frame given by its rows. *)
Definition of_rows (rows : list (list Z)) (r c : nat) : Q :=
  inject_Z (default 0 (rows !! r ≫= fun row => row !! c)).

Definition blank (r c : nat) : Q := 0%Q.

(** A calibration frame with signal in column 1 only, and a blank science
    frame of the same shape. *)
Definition one_anchor : Data :=
  {| sci_rows := 5; sci_cols := 2; sci_max := blank; sci_sum := blank;
     f277_rows := 5; f277_cols := 2;
     f277_max := of_rows [[0;1]; [0;1]; [0;0]; [0;1]; [0;1]];
     f277_sum := of_rows [[0;1]; [0;1]; [0;0]; [0;1]; [0;1]] |}.


(** A frame that is zero but for spikes at the given rows and columns. *)
Definition spikes (height : Z) (at_rows at_cols : list nat) (r c : nat) : Q :=
  if bool_decide (r ∈ at_rows) && bool_decide (c ∈ at_cols)
  then inject_Z height else 0%Q.

(** Two calibration columns with two peaks each, and a science frame with
    four peaks in the column beyond them. *)
Definition two_orders : Data :=
  {| sci_rows := 90; sci_cols := 3;
     sci_max := spikes 3000 [42; 54; 66; 78]%nat [2]%nat;
     sci_sum := spikes 3000 [42; 54; 66; 78]%nat [2]%nat;
     f277_rows := 30; f277_cols := 3;
     f277_max := spikes 200000 [5; 20]%nat [0; 1]%nat;
     f277_sum := spikes 200000 [5; 20]%nat [0; 1]%nat |}.

(** The tables the two strategies return on these frames. *)
Definition one_anchor_table : Table :=
  {| tab_x := [0; 1]; tab_order_1 := [1; 1]%Q; tab_order_2 := [1; 1]%Q |}.

Definition two_orders_table : Table :=
  {| tab_x := [0; 1; 2];
     tab_order_1 := [242 # 8; 242 # 8; 242 # 8]%Q;
     tab_order_2 := [582 # 18; 582 # 18; 582 # 18]%Q |}.

End Sample.


(** ** The parameter class of readEPF.py *)

Module ReadEPF.

(** The Python values a parameter file holds. *)
#[warnings="-register-all"]
Inductive pyval : Type :=
| PyNone
| PyBool (b : bool)
| PyInt (z : Z)
| PyFloat (q : Q)
| PyStr (s : string)
| PyList (l : list pyval)
| PyTuple (l : list pyval).

(** Booleans, integers and floats compare by their numeric value. *)
Definition number (v : pyval) : option Q :=
  match v with
  | PyBool b => Some (if b then 1%Q else 0%Q)
  | PyInt z => Some (inject_Z z)
  | PyFloat q => Some q
  | _ => None
  end.

(** Python's [a == b]. *)
Fixpoint py_eq (a b : pyval) {struct a} : bool :=
  match a, b with
  | PyNone, PyNone => true
  | PyStr s, PyStr t => String.eqb s t
  | PyList l, PyList m
  | PyTuple l, PyTuple m =>
      (fix all2 (l m : list pyval) {struct l} : bool :=
         match l, m with
         | [], [] => true
         | x :: l', y :: m' => py_eq x y && all2 l' m'
         | _, _ => false
         end) l m
  | _, _ =>
      match number a, number b with
      | Some p, Some q => Qeq_bool p q
      | _, _ => false
      end
  end.

(** Python's [v in l] for a list [l]. *)
Definition py_in (v : pyval) (l : list pyval) : bool := existsb (py_eq v) l.

(** A [Parameter] instance: its attribute dictionary. *)
Abbreviation obj := (gmap string pyval).

Definition ptypes : list string := ["free"; "fixed"; "independent"; "shared"].

(** The [ptype] setter: the instance afterwards, and whether it raised. *)
Definition ptype_setter (self : obj) (param_type : pyval) : obj * res unit :=
  if py_in param_type [PyBool true; PyBool false] then (self, inl ValueError)
  else if negb (py_in param_type (map PyStr ptypes)) then (self, inl ValueError)
  else (<["_ptype" := param_type]> self, inr tt).

(** The [ptype] getter. *)
Definition ptype (self : obj) : res pyval :=
  match self !! "_ptype" with
  | Some v => inr v
  | None => inl AttributeError
  end.

(** [Parameter.__init__]; [mn], [mx] and [prior] default to [None]. *)
Definition init (name value ptype mn mx prior : pyval) : res obj :=
  '(value, ptype, mn, mx) ←
    match value with
    | PyList [] => inl ValueError                    (* value, *other = value *)
    | PyList (v :: other) =>
        let '(ptype, other) :=
          match other with
          | p :: ((_ :: _) as rest) => (p, rest)      (* len(other) > 1 *)
          | _ => (ptype, other)
          end in
        match other with
        | [] => inr (v, ptype, mn, mx)
        | [a; b] => inr (v, ptype, a, b)              (* mn, mx = other *)
        | _ => inl ValueError
        end
    | _ => inr (value, ptype, mn, mx)
    end;
  let self : obj := <["mx" := mx]> (<["mn" := mn]> (<["value" := value]>
                    (<["name" := name]> ∅))) in
  let '(self, raised) := ptype_setter self ptype in
  _ ← raised;
  mret (<["prior" := prior]> self).

End ReadEPF.

(** ** The text of a parameter file, [EPF.read] and [EPF.__init__] *)

Module EPF.
Section Text.

(** A line is a list of characters (code points).  [isspace] is Python's
    whitespace test, the one [str.strip] and [str.split] use; [hash] is
    ['#'] and [space] is [' ']. *)
Context {char : Type} `{Countable char}.
Variable isspace : char -> bool.
Variable hash space : char.

(** [line[0:line.index('#')]] when ['#'] is in the line, else the line. *)
Fixpoint before_hash (line : list char) : list char :=
  match line with
  | [] => []
  | c :: rest => if decide (c = hash) then [] else c :: before_hash rest
  end.

(** The line without its leading whitespace. *)
Fixpoint lstrip (line : list char) : list char :=
  match line with
  | [] => []
  | c :: rest => if isspace c then lstrip rest else line
  end.

(** [line.strip()]. *)
Definition strip (line : list char) : list char :=
  reverse (lstrip (reverse (lstrip line))).

(** A token: not empty and free of whitespace. *)
Definition token (w : list char) : Prop :=
  w ≠ [] ∧ Forall (fun c => isspace c = false) w.

(** [line.split()]: the maximal runs of characters that are not
    whitespace. *)
Fixpoint split (line : list char) : list (list char) :=
  match line with
  | [] => []
  | c :: rest =>
      if isspace c then split rest
      else
        match rest with
        | [] => [[c]]
        | c' :: _ =>
            if isspace c' then [c] :: split rest
            else
              match split rest with
              | w :: ws => (c :: w) :: ws
              | [] => [[c]]
              end
        end
  end.

(** [' '.join(words)]. *)
Fixpoint join (words : list (list char)) : list char :=
  match words with
  | [] => []
  | [w] => w
  | w :: ws => w ++ space :: join ws
  end.

(** One turn of the cleaning loop of [read]. *)
Definition clean_line (line : list char) : list char :=
  join (split (strip (before_hash line))).

(** [self.cleanlines] after [read], from [self.lines]. *)
Definition read (lines : list (list char)) : list (list char) :=
  List.filter (fun line => negb (bool_decide (line = [])))
              (map clean_line lines).

(** [self.params] after [__init__].  [eval] is Python's [eval] on a token
    ([None] when it raises) and [str] the token kept as it is. *)
Context {V : Type}.
Variable eval : list char -> option V.
Variable str : list char -> V.

Definition values_of (tokens : list (list char)) : list V :=
  map (fun tok => default (str tok) (eval tok)) tokens.

Definition params_step (params : gmap (list char) (list V))
    (line : list char) : res (gmap (list char) (list V)) :=
  match split line with
  | [] => inl IndexError                          (* name = par[0] *)
  | name :: toks => inr (<[name := values_of toks]> params)
  end.

Definition params (lines : list (list char)) : res (gmap (list char) (list V)) :=
  foldl (fun acc line => p ← acc; params_step p line) (inr ∅) (read lines).

End Text.

(** Python's whitespace on code points, as [str.strip] and [str.split]
    test it, with ['#'] and [' ']. *)
Definition isspace (c : N) : bool :=
  ((9 <=? c) && (c <=? 13) || (28 <=? c) && (c <=? 32) || (c =? 133)
   || (c =? 160) || (c =? 5760) || (8192 <=? c) && (c <=? 8202)
   || (c =? 8232) || (c =? 8233) || (c =? 8239) || (c =? 8287)
   || (c =? 12288))%N.

Definition hash : N := 35.
Definition space : N := 32.

(** The code points of a string of bytes. *)
Definition code_points (s : string) : list N :=
  map Ascii.N_of_ascii (list_ascii_of_string s).

End EPF.

(** ** [Parameter.values] and [Parameters.__setattr__] *)

Module EPFParameters.
Import ReadEPF.

Definition getattr (self : obj) (name : string) : res pyval :=
  match self !! name with
  | Some v => inr v
  | None => inl AttributeError
  end.

Definition is_none (v : pyval) : bool :=
  match v with PyNone => true | _ => false end.

(** [lambda x: x is not None]. *)
Definition not_none (x : pyval) : bool := negb (is_none x).

(** [Parameter.values]: the six attributes that are not [None]. *)
Definition values (self : obj) : res (list pyval) :=
  name ← getattr self "name";
  value ← getattr self "value";
  pt ← ptype self;
  mn ← getattr self "mn";
  mx ← getattr self "mx";
  prior ← getattr self "prior";
  mret (List.filter not_none [name; value; pt; mn; mx; prior]).

(** What an attribute of a [Parameters] instance may be set to: a value
    of a parameter file, or a dictionary from names to lists of values
    (as [self.params] and [self.dict] are). *)
Inductive value : Type :=
| Py (v : pyval)
| PyDict (m : gmap string (list pyval)).

(** A [Parameters] instance once [__init__] has set [params] and [dict]:
    the [Parameter] instances among its attributes, and the raw
    attributes [params], [dict] and [epf]. *)
Record parameters : Type := {
  attrs : gmap string obj;
  params : value;
  dict : value;
  epf : option value
}.

(** [Parameter(item, *value)]: the list fills [value], [ptype], [mn],
    [mx] and [prior] in this order; [ptype] has no default. *)
Definition new_Parameter (item : string) (args : list pyval) : res obj :=
  match args with
  | [v; pt] => init (PyStr item) v pt PyNone PyNone PyNone
  | [v; pt; mn] => init (PyStr item) v pt mn PyNone PyNone
  | [v; pt; mn; mx] => init (PyStr item) v pt mn mx PyNone
  | [v; pt; mn; mx; prior] => init (PyStr item) v pt mn mx prior
  | _ => inl TypeError
  end.

(** The list [__setattr__] makes of its value: a string or a number
    becomes a list of one entry, a tuple a list; anything else that is not
    a list raises [TypeError]. *)
Definition as_list (v : value) : res (list pyval) :=
  match v with
  | Py (PyStr _ as x) | Py (PyFloat _ as x) | Py (PyInt _ as x)
  | Py (PyBool _ as x) => inr [x]
  | Py (PyTuple l) => inr l
  | Py (PyList l) => inr l
  | Py PyNone | PyDict _ => inl TypeError
  end.

(** The attributes [__setattr__] stores as they are. *)
Definition special (item : string) : Prop :=
  item = "epf" ∨ item = "params" ∨ item = "dict".

(** [Parameters.__setattr__]: the instance afterwards, and whether it
    raised. *)
Definition setattr (self : parameters) (item : string) (v : value)
  : parameters * res unit :=
  if bool_decide (item = "epf") then
    ({| attrs := attrs self; params := params self; dict := dict self;
        epf := Some v |}, inr tt)
  else if bool_decide (item = "params") then
    ({| attrs := attrs self; params := v; dict := dict self;
        epf := epf self |}, inr tt)
  else if bool_decide (item = "dict") then
    ({| attrs := attrs self; params := params self; dict := v;
        epf := epf self |}, inr tt)
  else
    match as_list v ≫= new_Parameter item with
    | inl e => (self, inl e)
    | inr p =>
        let self' := {| attrs := <[item := p]> (attrs self);
                        params := params self; dict := dict self;
                        epf := epf self |} in
        match values p, dict self with
        | inl e, _ => (self', inl e)
        | inr vals, PyDict m =>
            ({| attrs := attrs self'; params := params self';
                dict := PyDict (<[item := drop 1 vals]> m);
                epf := epf self' |}, inr tt)
        | inr _, Py _ => (self', inl TypeError)
        end
    end.

End EPFParameters.

(** ** A small parameter file and a [Parameters] instance, to run the
       routines *)

Module SampleEPF.
Import ReadEPF EPFParameters.

(** Three lines of a parameter file. *)
Definition lines : list (list N) :=
  [EPF.code_points "  rp   0.1  'free'  # radius ";
   EPF.code_points "# a comment";
   EPF.code_points "rp 0.2 'fixed'"].

(** An instance with one entry in [self.dict]. *)
Definition instance : parameters :=
  {| attrs := ∅; params := PyDict ∅;
     dict := PyDict {["per" := [PyFloat 3; PyStr "fixed"]]}; epf := None |}.

End SampleEPF.

(** * Facts *)

(** ** The primitives on small inputs *)

Example diff_of_centers : Np.diff [9; 8; 6; 0] = [-1; -2; -6].
Proof. reflexivity. Qed.

Example where_of_mask : Np.where_ [false; true; true; false; true] = [1; 2; 4]%nat.
Proof. reflexivity. Qed.

Example all_but_last : py_slice 0 (-1) [10; 20; 30] = [10; 20].
Proof. reflexivity. Qed.

Example first_250 : py_slice 0 250 [10; 20; 30] = [10; 20; 30].
Proof. reflexivity. Qed.

Example span_of_four : span [3; 5; 9; 12]%nat = Some (5, 9)%nat.
Proof. reflexivity. Qed.

Example span_of_two : span [3; 5]%nat = Some (5, 3)%nat.
Proof. reflexivity. Qed.

Example span_of_one : span [3]%nat = None.
Proof. reflexivity. Qed.

Example mean_is_truncated : Np.mean_int [1; 2]%nat = 1.
Proof. reflexivity. Qed.

Example poly1d_horner : poly1d [1; 2; 3]%Q 2 = 11%Q.
Proof. reflexivity. Qed.

Example height_bands :
  height_for 499 = 2000 ∧ height_for 500 = 100 ∧ height_for 699 = 100 ∧
  height_for 700 = 5000.
Proof. repeat split; reflexivity. Qed.

(** ** Array primitives *)

Lemma elem_of_where_from k mask i :
  i ∈ Np.where_from k mask ↔ (k ≤ i)%nat ∧ mask !! (i - k)%nat = Some true.
Proof.
  revert k. induction mask as [|b mask IH]; intros k; simpl.
  - split; [intros H; inversion H | intros [_ H]; discriminate].
  - assert (Hstep : (S k ≤ i)%nat → mask !! (i - S k)%nat = (b :: mask) !! (i - k)%nat).
    { intros Hk. replace (i - k)%nat with (S (i - S k)) by lia. done. }
    destruct b.
    + rewrite elem_of_cons, IH. split.
      * intros [->|[Hk Hm]]; [split; [lia | by rewrite Nat.sub_diag]|].
        split; [lia | by rewrite <- Hstep].
      * intros [Hk Hm]. destruct (decide (i = k)) as [->|]; [by left | right].
        split; [lia | rewrite Hstep; [done | lia]].
    + rewrite IH. split.
      * intros [Hk Hm]. split; [lia | by rewrite <- Hstep].
      * intros [Hk Hm]. destruct (decide (i = k)) as [->|].
        { by rewrite Nat.sub_diag in Hm. }
        split; [lia | rewrite Hstep; [done | lia]].
Qed.

Lemma elem_of_where mask i : i ∈ Np.where_ mask ↔ mask !! i = Some true.
Proof.
  unfold Np.where_. rewrite elem_of_where_from, Nat.sub_0_r.
  split; [by intros [_ ?] | split; [lia | done]].
Qed.


Lemma lookup_assign_at idx v arr i :
  Np.assign_at idx v arr !! i
  = if decide (i ∈ idx) then (fun _ => v) <$> arr !! i else arr !! i.
Proof.
  unfold Np.assign_at. revert arr.
  induction idx as [|j idx IH]; intros arr.
  - destruct (decide (i ∈ [])) as [H|_]; [by apply elem_of_nil in H | done].
  - change (foldl _ arr (j :: idx)) with
      (foldl (fun a k => <[k:=v]> a) (<[j:=v]> arr) idx).
    rewrite IH. destruct (decide (i = j)) as [->|Hne].
    + destruct (decide (j ∈ j :: idx)) as [_|H]; [|by destruct H; left].
      destruct (decide (j < length arr)%nat) as [Hlt|Hge].
      * rewrite list_lookup_insert_eq by done.
        destruct (lookup_lt_is_Some_2 _ _ Hlt) as [a ->]. case_decide; reflexivity.
      * rewrite list_insert_ge by lia.
        rewrite (proj2 (lookup_ge_None arr j)) by lia. case_decide; reflexivity.
    + rewrite list_lookup_insert_ne by done.
      destruct (decide (i ∈ idx)) as [Hin|Hin];
        destruct (decide (i ∈ j :: idx)) as [Hin'|Hin']; try done.
      * destruct Hin'. by right.
      * apply elem_of_cons in Hin'. tauto.
Qed.

Lemma length_assign_at idx v arr : length (Np.assign_at idx v arr) = length arr.
Proof.
  unfold Np.assign_at. revert arr.
  induction idx as [|j idx IH]; intros arr; simpl; [done|].
  by rewrite IH, length_insert.
Qed.

Lemma length_assign_from k v arr :
  length (Np.assign_from k v arr) = length arr.
Proof.
  unfold Np.assign_from. rewrite length_app, length_take, length_replicate. lia.
Qed.

Lemma lookup_diff arr i :
  Np.diff arr !! i
  = match arr !! S i, arr !! i with
    | Some b, Some a => Some (b - a)
    | _, _ => None
    end.
Proof.
  unfold Np.diff. rewrite lookup_zip_with, lookup_drop. simpl.
  destruct (arr !! S i), (arr !! i); done.
Qed.

Lemma elem_of_select_map {A} (f : A → bool) (l : list A) (x : A) :
  x ∈ Np.select (map f l) l ↔ x ∈ l ∧ f x = true.
Proof.
  induction l as [|y l IH]; simpl.
  - split; [intros H | intros [H _]]; by apply elem_of_nil in H.
  - destruct (f y) eqn:Hy; rewrite ?elem_of_cons, IH.
    + split.
      * intros [->|[? ?]]; [split; [by left | done] | split; [by right | done]].
      * intros [[->|?] ?]; [by left | by right].
    + split.
      * intros [? ?]. split; [by right | done].
      * intros [[->|?] ?]; [congruence | done].
Qed.

Lemma Forall_select {A} (P : A → Prop) (mask : list bool) (a : list A) :
  Forall P a → Forall P (Np.select mask a).
Proof.
  intros Ha. revert mask. induction Ha as [|x a Hx Ha IH]; intros [|b mask]; simpl;
    try constructor.
  destruct b; [constructor; [done | apply IH] | apply IH].
Qed.


Lemma zip_select {A B} (mask : list bool) (a : list A) (b : list B) :
  zip (Np.select mask a) (Np.select mask b) = Np.select mask (zip a b).
Proof.
  revert a b. induction mask as [|m mask IH]; intros a b.
  - by destruct a, b.
  - destruct a as [|x a]; [done|]. destruct b as [|y b].
    + simpl. destruct m; simpl; [done | apply zip_with_nil_r].
    + simpl. destruct m; simpl; by rewrite IH.
Qed.

Lemma select_fmap {A B} (f : A → B) (mask : list bool) (l : list A) :
  Np.select mask (f <$> l) = f <$> Np.select mask l.
Proof.
  revert l. induction mask as [|b mask IH]; intros [|x l]; simpl; try done.
  destruct b; simpl; by rewrite IH.
Qed.

Lemma length_arange n : length (Np.arange n) = n.
Proof. unfold Np.arange. by rewrite length_map, length_seq. Qed.

Lemma lookup_arange n (i : nat) :
  Np.arange n !! i = if decide (i < n)%nat then Some (Z.of_nat i) else None.
Proof.
  unfold Np.arange. rewrite list_lookup_fmap.
  destruct (decide (i < n)%nat).
  - by rewrite lookup_seq_lt.
  - by rewrite lookup_seq_ge by lia.
Qed.



Lemma elem_of_where_column {A} (f : A → bool) (img : array2 A) (i r : nat) :
  r ∈ Np.where_ (map f (column img i))
  ↔ (r < nrows img)%nat ∧ f (pix img r i) = true.
Proof.
  rewrite elem_of_where. unfold column. rewrite !list_lookup_fmap.
  destruct (decide (r < nrows img)%nat) as [Hr|Hr].
  - rewrite lookup_seq_lt by done. simpl. split; [intros [= ->]; done | intros [_ ->]; done].
  - rewrite lookup_seq_ge by lia. simpl. split; [done | tauto].
Qed.


(** ** The outlier test against numpy's real-valued mean and deviation *)

Lemma sqdev_R_expand (m : R) (ds : list Z) :
  sqdev_R m ds
  = (IZR (Np.sumsq ds) - 2 * m * IZR (Np.sum ds) + INR (length ds) * m * m)%R.
Proof.
  induction ds as [|d ds IH].
  - simpl. ring.
  - change (sqdev_R m (d :: ds))
      with ((IZR d - m) * (IZR d - m) + sqdev_R m ds)%R.
    change (Np.sumsq (d :: ds)) with (d * d + Np.sumsq ds).
    change (Np.sum (d :: ds)) with (d + Np.sum ds).
    change (length (d :: ds)) with (S (length ds)).
    rewrite IH, !plus_IZR, mult_IZR, S_INR. ring.
Qed.

Lemma sqdev_R_nonneg (m : R) (ds : list Z) : (0 <= sqdev_R m ds)%R.
Proof.
  induction ds as [|d ds IH]; [simpl; lra|].
  change (sqdev_R m (d :: ds))
    with ((IZR d - m) * (IZR d - m) + sqdev_R m ds)%R.
  pose proof (Rle_0_sqr (IZR d - m)) as Hsq. unfold Rsqr in Hsq. lra.
Qed.

(** The integer quantities of the tests are the real ones scaled: with [N]
    the number of differences and [W] their variance,
    [n*a - S = N*(a - mean)] and [n*Q - S*S = N*N*W]. *)
Lemma sigma_scaling (ds : list Z) (a : Z) :
  ds ≠ [] →
  let n := Z.of_nat (length ds) in
  let N := INR (length ds) in
  let W := (sqdev_R (mean_R ds) ds / N)%R in
  (0 < N)%R ∧ (0 <= W)%R ∧
  IZR (n * a - Np.sum ds) = (N * (IZR a - mean_R ds))%R ∧
  IZR (n * Np.sumsq ds - Np.sum ds * Np.sum ds) = (N * N * W)%R.
Proof.
  intros Hne n N W.
  assert (Hn : (0 < N)%R).
  { apply lt_0_INR. destruct ds; [done | simpl; lia]. }
  assert (HnZ : N = IZR n) by apply INR_IZR_INZ.
  assert (Hm : (mean_R ds * N = IZR (Np.sum ds))%R).
  { unfold mean_R. fold N. field. lra. }
  split; [done|]. split.
  { unfold W. apply Rmult_le_pos; [apply sqdev_R_nonneg|].
    left. by apply Rinv_0_lt_compat. }
  split.
  - rewrite minus_IZR, mult_IZR, <- HnZ, <- Hm. ring.
  - unfold W. rewrite sqdev_R_expand. fold N.
    rewrite minus_IZR, !mult_IZR, <- HnZ, <- Hm. field. lra.
Qed.

Lemma three_sqrt (W u : R) :
  (0 <= W)%R →
  ((3 * sqrt W <= u)%R ↔ (0 <= u)%R ∧ (9 * W <= u * u)%R) ∧
  ((3 * sqrt W < u)%R ↔ (0 < u)%R ∧ (9 * W < u * u)%R).
Proof.
  intros HW. pose proof (sqrt_pos W) as Hp.
  pose proof (sqrt_sqrt W HW) as Hss.
  assert (H3 : (3 * sqrt W = sqrt (9 * W))%R).
  { rewrite sqrt_mult by lra. replace 9%R with (3 * 3)%R by ring.
    rewrite sqrt_square by lra. done. }
  split; split.
  - intros H. split; [lra | nra].
  - intros [Hu Hsq]. rewrite H3, <- (sqrt_square u) by done.
    by apply sqrt_le_1_alt.
  - intros H. split; [lra | nra].
  - intros [Hu Hsq]. rewrite H3, <- (sqrt_square u) by lra.
    apply sqrt_lt_1_alt. split; [lra | done].
Qed.

(** The integer test of [rm_outliers] is the comparison
    [np.abs(d) >= np.nanmean(diff) + 3*np.nanstd(diff)] over the reals. *)
Lemma beyond_3sigma_real (ds : list Z) (d : Z) :
  ds ≠ [] →
  beyond_3sigma ds d = true
  ↔ (mean_R ds + 3 * std_R ds <= IZR (Z.abs d))%R.
Proof.
  intros Hne. unfold beyond_3sigma, std_R.
  destruct (sigma_scaling ds (Z.abs d) Hne) as (HN & HW & Ht & HV).
  cbv zeta in Ht, HV, HW, HN.
  set (N := INR (length ds)) in *. set (m := mean_R ds) in *.
  set (W := (sqdev_R m ds / N)%R) in *. set (u := (IZR (Z.abs d) - m)%R) in *.
  destruct (three_sqrt W u HW) as [Hle _].
  rewrite andb_true_iff, !Z.leb_le.
  transitivity ((0 <= u)%R ∧ (9 * W <= u * u)%R);
    [|rewrite <- Hle; unfold u; split; intros; lra].
  split.
  - intros [H0 Hsq]. apply IZR_le in H0, Hsq.
    rewrite Ht in H0. rewrite !mult_IZR, Ht, HV in Hsq.
    split; [nra|]. apply Rmult_le_reg_l with (N * N)%R; [nra | lra].
  - intros [H0 Hsq]. split; apply le_IZR.
    + rewrite Ht. nra.
    + rewrite !mult_IZR, Ht, HV. nra.
Qed.

(** Likewise the strict test is [np.abs(d) > mean + 3*std]. *)
Lemma strictly_beyond_3sigma_real (ds : list Z) (d : Z) :
  ds ≠ [] →
  strictly_beyond_3sigma ds d = true
  ↔ (mean_R ds + 3 * std_R ds < IZR (Z.abs d))%R.
Proof.
  intros Hne. unfold strictly_beyond_3sigma, std_R.
  destruct (sigma_scaling ds (Z.abs d) Hne) as (HN & HW & Ht & HV).
  cbv zeta in Ht, HV, HW, HN.
  set (N := INR (length ds)) in *. set (m := mean_R ds) in *.
  set (W := (sqdev_R m ds / N)%R) in *. set (u := (IZR (Z.abs d) - m)%R) in *.
  destruct (three_sqrt W u HW) as [_ Hlt].
  rewrite andb_true_iff, !Z.ltb_lt.
  transitivity ((0 < u)%R ∧ (9 * W < u * u)%R);
    [|rewrite <- Hlt; unfold u; split; intros; lra].
  split.
  - intros [H0 Hsq]. apply IZR_lt in H0, Hsq.
    rewrite Ht in H0. rewrite !mult_IZR, Ht, HV in Hsq.
    split.
    + apply Rmult_lt_reg_l with N; [done|]. by rewrite Rmult_0_r.
    + apply Rmult_lt_reg_l with (N * N)%R; [nra | lra].
  - intros [H0 Hsq]. assert (HNN : (0 < N * N)%R) by nra.
    split; apply lt_IZR.
    + rewrite Ht. nra.
    + rewrite !mult_IZR, Ht, HV.
      pose proof (Rmult_lt_compat_l (N * N) _ _ HNN Hsq). lra.
Qed.

(** ** Outlier removal *)

Lemma elem_of_outliers arr i :
  i ∈ outliers arr
  ↔ ∃ d, Np.diff arr !! i = Some d ∧ beyond_3sigma (Np.diff arr) d = true.
Proof.
  unfold outliers. rewrite elem_of_where, list_lookup_fmap.
  destruct (Np.diff arr !! i) as [d|]; simpl.
  - split; [intros [= H]; eauto | intros (d' & [= <-] & H); by rewrite H].
  - split; [done | by intros (d' & ? & _)].
Qed.

Lemma outliers_lt arr i : i ∈ outliers arr → is_Some (arr !! i).
Proof.
  rewrite elem_of_outliers, lookup_diff. intros (d & H & _).
  destruct (arr !! S i), (arr !! i); eauto; done.
Qed.

Lemma length_rm_outliers arr : length (rm_outliers arr) = length arr.
Proof. apply length_assign_at. Qed.



Lemma rm_outliers_fixed (b : list Z) :
  rm_outliers b = b ↔ ∀ i, i ∈ outliers b → b !! i = Some 0.
Proof.
  split.
  - intros Heq i Hin. destruct (outliers_lt _ _ Hin) as [a Ha].
    rewrite <- Heq at 1. unfold rm_outliers.
    rewrite lookup_assign_at, decide_True, Ha by done. done.
  - intros Hz. apply list_eq. intros i. unfold rm_outliers.
    rewrite lookup_assign_at. destruct (decide (i ∈ outliers b)) as [Hin|]; [|done].
    by rewrite (Hz _ Hin).
Qed.

Lemma rm_outliers_only_resets (b : list Z) (i : nat) :
  rm_outliers b !! i = b !! i ∨ rm_outliers b !! i = Some 0.
Proof.
  unfold rm_outliers. rewrite lookup_assign_at.
  destruct (decide (i ∈ outliers b)) as [Hin|]; [|by left].
  destruct (outliers_lt _ _ Hin) as [a ->]. by right.
Qed.

(** C3, as the code has it: a second pass leaves a cleaned sequence as it
    is exactly when every difference it flags starts at an entry that is
    already 0; otherwise it resets further entries, and it never turns an
    entry into anything but 0. *)
Theorem rm_outliers_second_pass (arr : list Z) :
  (rm_outliers (rm_outliers arr) = rm_outliers arr
   ↔ ∀ i, i ∈ outliers (rm_outliers arr) → rm_outliers arr !! i = Some 0) ∧
  (∀ i, rm_outliers (rm_outliers arr) !! i = rm_outliers arr !! i
        ∨ rm_outliers (rm_outliers arr) !! i = Some 0).
Proof.
  split; [apply rm_outliers_fixed | apply rm_outliers_only_resets].
Qed.

(** C3 fails as worded: the second pass over [9;8;6;0] resets one more
    entry. *)
Lemma rm_outliers_not_idempotent :
  rm_outliers [9;8;6;0] = [9;8;0;0] ∧
  rm_outliers (rm_outliers [9;8;6;0]) = [9;0;0;0] ∧
  rm_outliers (rm_outliers [9;8;6;0]) ≠ rm_outliers [9;8;6;0].
Proof. repeat split; vm_compute; congruence. Qed.

(** ** Fallible computations *)

Lemma res_bind_inr {A B} (m : res A) (f : A → res B) (b : B) :
  m ≫= f = inr b → ∃ a, m = inr a ∧ f a = inr b.
Proof. destruct m as [e|a]; [done | eauto]. Qed.

Lemma M_bind_inr {A B} (m : M A) (f : A → M B) shown (b : B) :
  m ≫= f = (shown, inr b) →
  ∃ s1 a s2, m = (s1, inr a) ∧ f a = (s2, inr b) ∧ shown = s1 ++ s2.
Proof.
  destruct m as [s1 [e|a]]; [done|]. unfold mbind, M_bind.
  destruct (f a) as [s2 r] eqn:Hf. intros [= <- ->]. eauto 6.
Qed.

Lemma outcome_bind {A B} (m : M A) (f : A → M B) :
  outcome (m ≫= f) = outcome m ≫= (fun a => outcome (f a)).
Proof.
  destruct m as [s1 [e|a]]; [done|]. unfold mbind, M_bind, outcome. simpl.
  by destruct (f a).
Qed.

Lemma outcome_inr {A} (m : M A) (a : A) :
  outcome m = inr a → ∃ shown, m = (shown, inr a).
Proof. destruct m as [shown r]. simpl. intros ->. eauto. Qed.




Lemma mapM_res_inr {A B} (f : A → res B) (l : list A) (k : list B) :
  mapM f l = inr k → Forall2 (fun a b => f a = inr b) l k.
Proof.
  revert k. induction l as [|a l IH]; intros k; simpl.
  - intros [= <-]. constructor.
  - intros H. apply res_bind_inr in H as (b & Hb & H).
    apply res_bind_inr in H as (k' & Hk & [= <-]).
    constructor; [done | by apply IH].
Qed.


(** [good = np.where(...)] is a 1-tuple, so [good[5:-5]] is the empty
    tuple, and indexing with it keeps the whole array. *)
Lemma sliced_where_is_empty (w : list nat) : py_slice 5 (-5) [w] = [].
Proof. reflexivity. Qed.

Lemma index_sliced_where {A} (a : list A) (w : list nat) :
  index_tuple a (py_slice 5 (-5) [w]) = inr a.
Proof. reflexivity. Qed.

(** ** The tracing routines *)

Section NirissFacts.

Variable image_filtering :
  array2 Q -> res ((nat -> nat -> bool) * (nat -> nat -> Q)).
Variable polyfit : list Z -> list Z -> nat -> res (list Q).
Variable find_peaks : list Q -> Z -> nat -> list nat.
Variable cosmicray_lacosmic : array2 Q -> res (nat -> nat -> Q).
Variable write_csv : string -> Table -> res unit.

Abbreviation method_one := (mask_method_one image_filtering polyfit write_csv).
Abbreviation method_two :=
  (mask_method_two polyfit find_peaks cosmicray_lacosmic write_csv).

(** C6: an anchor is returned by [f277_mask] exactly when it is a row of
    [mid] with column below 420, positive column and positive row; so every
    returned anchor meets the three bounds and every candidate that misses
    one is left out. *)
Theorem f277_mask_anchors (d : Data) (isplots : Z) shown new_mask anchors :
  f277_mask image_filtering d isplots = (shown, inr (new_mask, anchors)) →
  ∃ z g,
    image_filtering (crop 150 500 (f277_img d)) = inr (z, g) ∧
    ∀ p : Z * Z,
      p ∈ anchors
      ↔ p ∈ f277_mid (f277_spans (Array2 (Nat.min 150 (f277_rows d))
                                          (Nat.min 500 (f277_cols d)) z))
        ∧ p.1 < 420 ∧ 0 < p.1 ∧ 0 < p.2.
Proof.
  unfold f277_mask. intros H.
  apply M_bind_inr in H as (s1 & [z g] & s2 & Hz & H & _).
  apply M_bind_inr in H as (s3 & [] & s4 & _ & [= _ <- <-] & _).
  exists z, g. split; [by injection Hz|].
  intros p. rewrite elem_of_select_map. unfold anchor_ok. simpl.
  rewrite !andb_true_iff, !Z.ltb_lt. tauto.
Qed.


Lemma length_gcenters_1 g : length (gcenters_1 g) = ncols g.
Proof. unfold gcenters_1. by rewrite length_map, length_seq. Qed.

Lemma simplify_shape d isplots shown g :
  simplify_niriss_img image_filtering d isplots = (shown, inr g) →
  nrows g = sci_rows d ∧ ncols g = sci_cols d.
Proof.
  unfold simplify_niriss_img. intros H.
  apply M_bind_inr in H as (s1 & [z g0] & s2 & _ & H & _).
  apply M_bind_inr in H as (s3 & [] & s4 & _ & [= _ <-] & _). done.
Qed.

Lemma f277_mask_shape d isplots shown f anchors :
  f277_mask image_filtering d isplots = (shown, inr (f, anchors)) →
  nrows f = f277_rows d ∧ ncols f = f277_cols d.
Proof.
  unfold f277_mask. intros H.
  apply M_bind_inr in H as (? & [z g0] & ? & _ & H & _).
  apply M_bind_inr in H as (? & [] & ? & _ & [= _ <- _] & _). done.
Qed.

Lemma find_centers_length img cutends centers :
  find_centers img cutends = inr centers → length centers = ncols img.
Proof.
  unfold find_centers. destruct (nrows img =? 0)%nat; [done|].
  intros [= <-]. destruct cutends; rewrite ?length_assign_from,
    length_rm_outliers, length_map, length_seq; done.
Qed.

Lemma clean_and_fit_lengths x1 x2 y1 y2 fit :
  clean_and_fit polyfit x1 x2 y1 y2 = inr fit → length x1 = length y1.
Proof.
  unfold clean_and_fit, clean. intros H.
  apply res_bind_inr in H as (pts & H & _).
  apply res_bind_inr in H as (x1' & H & _).
  unfold bool_index in H. rewrite length_map in H.
  destruct (length x1 =? length y1)%nat eqn:E; [|done].
  by apply Nat.eqb_eq in E.
Qed.

Lemma method_one_table d isplots save shown tab :
  method_one d isplots save = (shown, inr tab) →
  tab_x tab = Np.arange (sci_cols d) ∧
  length (tab_order_1 tab) = sci_cols d ∧
  length (tab_order_2 tab) = sci_cols d.
Proof.
  unfold mask_method_one. intros H.
  apply M_bind_inr in H as (s1 & g & s2 & Hg & H & _).
  apply simplify_shape in Hg as [_ Hc].
  apply M_bind_inr in H as (? & [f anchors] & ? & _ & H & _).
  apply M_bind_inr in H as (? & ? & ? & _ & H & _).
  apply M_bind_inr in H as (? & f_centers & ? & _ & H & _).
  apply M_bind_inr in H as (? & fit1 & ? & _ & H & _).
  apply M_bind_inr in H as (? & fit2 & ? & _ & H & _).
  apply M_bind_inr in H as (? & ? & ? & _ & H & _).
  apply M_bind_inr in H as (? & ? & ? & _ & [= _ <-] & _). simpl.
  rewrite !length_map, length_arange, length_rm_outliers, length_gcenters_1, Hc.
  done.
Qed.

Lemma clean_and_fit_inr x1 x2 y1 y2 fit :
  clean_and_fit polyfit x1 x2 y1 y2 = inr fit →
  ∃ pts poly,
    clean x1 x2 y1 y2 = inr pts ∧ polyfit pts.1 pts.2 4 = inr poly ∧
    fit = poly1d poly.
Proof.
  unfold clean_and_fit. intros H.
  apply res_bind_inr in H as (pts & Hpts & H).
  apply res_bind_inr in H as (poly & Hpoly & [= <-]). eauto.
Qed.

(** What a returned table of [mask_method_one] is made of: the two point
    sets built by [clean] from the calibration centers and the science
    centers of each order, the two degree-4 fits of these points, and the
    fits evaluated over all columns. *)
Lemma method_one_fits d isplots save shown tab :
  method_one d isplots save = (shown, inr tab) →
  ∃ g f anchors f_centers pts1 pts2 poly1 poly2,
    outcome (simplify_niriss_img image_filtering d isplots) = inr g ∧
    outcome (f277_mask image_filtering d 0) = inr (f, anchors) ∧
    find_centers f (Some 430%nat) = inr f_centers ∧
    let x := Np.arange (length (rm_outliers (gcenters_1 g))) in
    let s1 := science_1 x (rm_outliers (gcenters_1 g)) in
    let s2 := science_2 x (rm_outliers (gcenters_2 g)) in
    clean x s1.1 f_centers s1.2 = inr pts1 ∧
    polyfit pts1.1 pts1.2 4 = inr poly1 ∧
    clean x s2.1 f_centers s2.2 = inr pts2 ∧
    polyfit pts2.1 pts2.2 4 = inr poly2 ∧
    tab = {| tab_x := x;
             tab_order_1 := map (poly1d poly1) x;
             tab_order_2 := map (poly1d poly2) x |}.
Proof.
  unfold mask_method_one. intros H.
  apply M_bind_inr in H as (? & g & ? & Hg & H & _).
  apply M_bind_inr in H as (? & [f anchors] & ? & Hf & H & _).
  apply M_bind_inr in H as (? & ? & ? & _ & H & _).
  apply M_bind_inr in H as (? & f_centers & ? & [= _ Hc] & H & _).
  apply M_bind_inr in H as (? & fit1 & ? & [= _ H1] & H & _).
  apply M_bind_inr in H as (? & fit2 & ? & [= _ H2] & H & _).
  apply M_bind_inr in H as (? & ? & ? & _ & H & _).
  apply M_bind_inr in H as (? & ? & ? & _ & [= _ <-] & _).
  apply clean_and_fit_inr in H1 as (pts1 & poly1 & Hp1 & Hq1 & ->).
  apply clean_and_fit_inr in H2 as (pts2 & poly2 & Hp2 & Hq2 & ->).
  exists g, f, anchors, f_centers, pts1, pts2, poly1, poly2.
  rewrite Hg, Hf. simpl. done.
Qed.

Lemma peak_tables_x d xf f277_peaks x peaks :
  peak_tables find_peaks cosmicray_lacosmic d = inr (xf, f277_peaks, x, peaks) →
  x = Np.arange (sci_cols d).
Proof.
  unfold peak_tables. intros H.
  apply res_bind_inr in H as (cleaned & _ & H).
  apply res_bind_inr in H as (rows & _ & H). simpl in H.
  by inversion H.
Qed.

Lemma method_two_table d isplots save shown tab :
  method_two d isplots save = (shown, inr tab) →
  tab_x tab = Np.arange (sci_cols d) ∧
  length (tab_order_1 tab) = sci_cols d ∧
  length (tab_order_2 tab) = sci_cols d.
Proof.
  unfold mask_method_two. intros H.
  apply M_bind_inr in H as (? & [[[xf fp] x] peaks] & ? & Hp & H & _).
  injection Hp as _ Hp. apply peak_tables_x in Hp as ->.
  apply M_bind_inr in H as (? & fit0 & ? & _ & H & _).
  apply M_bind_inr in H as (? & fit1 & ? & _ & H & _).
  apply M_bind_inr in H as (? & fit2 & ? & _ & H & _).
  apply M_bind_inr in H as (? & fit3 & ? & _ & H & _).
  apply M_bind_inr in H as (? & ? & ? & _ & H & _).
  apply M_bind_inr in H as (? & ? & ? & _ & [= _ <-] & _). simpl.
  by rewrite !length_map, length_arange.
Qed.

(** C8: the table either strategy returns has the column ['x'] equal to
    [0 .. n-1] and the columns ['order_1'] and ['order_2'] of length [n],
    for [n] the number of columns of the science frame. *)
Theorem trace_table_rows (d : Data) (isplots : Z) (save : bool)
    (shown : list event) (tab : Table) :
  method_one d isplots save = (shown, inr tab)
  ∨ method_two d isplots save = (shown, inr tab) →
  tab_x tab = Np.arange (sci_cols d) ∧
  length (tab_x tab) = sci_cols d ∧
  length (tab_order_1 tab) = sci_cols d ∧
  length (tab_order_2 tab) = sci_cols d.
Proof.
  intros [H|H]; [apply method_one_table in H | apply method_two_table in H];
    destruct H as (Hx & H1 & H2); rewrite Hx, length_arange; done.
Qed.







Section Peaks.

(** scipy returns the peak indices in increasing order. *)
Hypothesis find_peaks_increasing :
  ∀ col height distance, StronglySorted lt (find_peaks col height distance).





End Peaks.


End NirissFacts.

(** ** Runs on the sample frames *)


Abbreviation sample_one :=
  (mask_method_one Sample.image_filtering Sample.polyfit Sample.write_csv).
Abbreviation sample_two :=
  (mask_method_two Sample.polyfit Sample.find_peaks Sample.cosmicray_lacosmic
                   Sample.write_csv).




Lemma f277_mask_anchors_witness :
  ∃ z g,
    Sample.image_filtering (crop 150 500 (f277_img Sample.one_anchor))
      = inr (z, g) ∧
    ∀ p : Z * Z,
      p ∈ [(1, 2)]
      ↔ p ∈ f277_mid (f277_spans
                        (Array2 (Nat.min 150 (f277_rows Sample.one_anchor))
                                (Nat.min 500 (f277_cols Sample.one_anchor)) z))
        ∧ p.1 < 420 ∧ 0 < p.1 ∧ 0 < p.2.
Proof.
  eapply (f277_mask_anchors Sample.image_filtering Sample.one_anchor 0 []).
  reflexivity.
Defined.

Lemma trace_table_rows_witness :
  (tab_x Sample.one_anchor_table = Np.arange 2 ∧
   length (tab_x Sample.one_anchor_table) = 2%nat ∧
   length (tab_order_1 Sample.one_anchor_table) = 2%nat ∧
   length (tab_order_2 Sample.one_anchor_table) = 2%nat) ∧
  (tab_x Sample.two_orders_table = Np.arange 3 ∧
   length (tab_x Sample.two_orders_table) = 3%nat ∧
   length (tab_order_1 Sample.two_orders_table) = 3%nat ∧
   length (tab_order_2 Sample.two_orders_table) = 3%nat).
Proof.
  split.
  - apply (trace_table_rows Sample.image_filtering Sample.polyfit
             Sample.find_peaks Sample.cosmicray_lacosmic Sample.write_csv
             Sample.one_anchor 0 true []).
    left. vm_compute. reflexivity.
  - apply (trace_table_rows Sample.image_filtering Sample.polyfit
             Sample.find_peaks Sample.cosmicray_lacosmic Sample.write_csv
             Sample.two_orders 0 true []).
    right. vm_compute. reflexivity.
Defined.



(** ** The parameter class *)

Import ReadEPF.

Lemma py_in_ptypes (v : pyval) :
  py_in v (map PyStr ptypes) = true → ∃ s, v = PyStr s ∧ s ∈ ptypes.
Proof.
  unfold py_in, ptypes. cbn [map existsb].
  destruct v as [|b|z|q|s|l|l]; cbn [py_eq number]; try done.
  rewrite !orb_true_iff, !String.eqb_eq. intros H.
  exists s. split; [done|]. rewrite !elem_of_cons.
  destruct H as [?|[?|[?|[?|?]]]]; auto 6; discriminate.
Qed.

Lemma py_in_ptypes_false (v : pyval) :
  (∀ s, s ∈ ptypes → v ≠ PyStr s) → py_in v (map PyStr ptypes) = false.
Proof.
  intros H. destruct (py_in v (map PyStr ptypes)) eqn:E; [|done].
  apply py_in_ptypes in E as (s & -> & Hs). by destruct (H s Hs).
Qed.

Lemma ptype_setter_stores (self self' : obj) (v : pyval) :
  ptype_setter self v = (self', inr ()) →
  ∃ s, v = PyStr s ∧ s ∈ ptypes ∧ self' = <["_ptype" := v]> self.
Proof.
  unfold ptype_setter. destruct (py_in v [_; _]); [done|].
  destruct (py_in v (map PyStr ptypes)) eqn:E; simpl; [|done].
  intros [= <-]. apply py_in_ptypes in E as (s & -> & Hs). eauto.
Qed.

(** C10: a [Parameter] that [__init__] returns has a [ptype] among
    'free', 'fixed', 'independent' and 'shared'; assigning anything else,
    booleans included, raises [ValueError] and leaves the instance as it
    was. *)
Theorem ptype_is_validated :
  (∀ (name value pt mn mx prior : pyval) (self : obj),
     init name value pt mn mx prior = inr self →
     ∃ s, ptype self = inr (PyStr s) ∧ s ∈ ptypes) ∧
  (∀ (self : obj) (v : pyval),
     (∀ s, s ∈ ptypes → v ≠ PyStr s) →
     ptype_setter self v = (self, inl ValueError)).
Proof.
  split.
  - intros name value pt mn mx prior self. unfold init. intros H.
    apply res_bind_inr in H as ([[[value' pt'] mn'] mx'] & _ & H).
    destruct (ptype_setter _ pt') as [self' raised] eqn:Hset.
    destruct raised as [e|[]]; [done|]. injection H as <-.
    apply ptype_setter_stores in Hset as (s & -> & Hs & ->).
    exists s. split; [|done]. unfold ptype.
    rewrite lookup_insert_ne by done. by rewrite lookup_insert_eq.
  - intros self v Hv. unfold ptype_setter.
    destruct (py_in v [_; _]); [done|]. by rewrite py_in_ptypes_false.
Qed.

Example setter_rejects_typo :
  ptype_setter ∅ (PyStr "fixd") = (∅, inl ValueError) ∧
  (ptype_setter ∅ (PyStr "fixed")).2 = inr () ∧
  ptype_setter ∅ (PyInt 1) = (∅, inl ValueError).
Proof. repeat split; vm_compute; reflexivity. Qed.

Example init_unpacks_list :
  init (PyStr "rp") (PyList [PyFloat 1; PyStr "shared"]) PyNone PyNone PyNone
       PyNone = inl ValueError ∧
  init (PyStr "rp") (PyList []) (PyStr "free") PyNone PyNone PyNone
    = inl ValueError ∧
  init (PyStr "rp") (PyFloat 1) (PyBool true) PyNone PyNone PyNone
    = inl ValueError.
Proof. repeat split; vm_compute; reflexivity. Qed.

Lemma ptype_is_validated_witness :
  (∃ s, ptype (<["prior" := PyStr "U"]> (<["_ptype" := PyStr "free"]>
                (<["mx" := PyInt 1]> (<["mn" := PyInt 0]>
                (<["value" := PyFloat 1]> (<["name" := PyStr "rp"]> ∅))))))
        = inr (PyStr s) ∧ s ∈ ptypes) ∧
  ptype_setter ∅ (PyBool true) = (∅, inl ValueError).
Proof.
  destruct ptype_is_validated as [Hinit Hset]. split.
  - apply (Hinit (PyStr "rp")
             (PyList [PyFloat 1; PyStr "free"; PyInt 0; PyInt 1])
             PyNone PyNone PyNone (PyStr "U")).
    vm_compute. reflexivity.
  - apply Hset. intros s _. discriminate.
Defined.

(** * More of niriss.py *)

(** ** [rm_outliers] on a straight line *)

Lemma sum_constant (d : Z) (l : list Z) :
  Forall (eq d) l →
  Np.sum l = Z.of_nat (length l) * d ∧ Np.sumsq l = Z.of_nat (length l) * (d * d).
Proof.
  induction 1 as [|x l <- _ [IH1 IH2]]; [done|].
  change (Np.sum (d :: l)) with (d + Np.sum l).
  change (Np.sumsq (d :: l)) with (d * d + Np.sumsq l).
  rewrite IH1, IH2. simpl length. split; lia.
Qed.

Lemma beyond_3sigma_constant (d : Z) (l : list Z) :
  Forall (eq d) l → beyond_3sigma l d = true.
Proof.
  intros H. destruct (sum_constant d l H) as [Hs Hq].
  unfold beyond_3sigma. rewrite Hs, Hq.
  apply andb_true_iff. split; [apply Z.leb_le | apply Z.leb_le]; nia.
Qed.

(** X1: a center sequence on a straight line (all differences of
    neighbours equal) is reset to 0 by [rm_outliers] in every entry but
    the last. *)
Theorem rm_outliers_wipes_straight_line (arr : list Z) (d : Z) :
  Forall (eq d) (Np.diff arr) →
  rm_outliers arr
  = replicate (length arr - 1) 0 ++ drop (length arr - 1) arr.
Proof.
  intros Hd. apply list_eq. intros i.
  unfold rm_outliers. rewrite lookup_assign_at.
  assert (Hlen : length (Np.diff arr) = (length arr - 1)%nat).
  { unfold Np.diff. rewrite length_zip_with, length_drop. lia. }
  destruct (decide (i < length arr - 1)%nat) as [Hi|Hi].
  - rewrite lookup_app_l by (rewrite length_replicate; lia).
    rewrite lookup_replicate_2 by done.
    rewrite decide_True.
    + destruct (lookup_lt_is_Some_2 arr i ltac:(lia)) as [a ->]. done.
    + apply elem_of_outliers.
      destruct (lookup_lt_is_Some_2 (Np.diff arr) i ltac:(lia)) as [x Hx].
      exists x. split; [done|].
      rewrite Forall_forall in Hd.
      rewrite <- (Hd x (list_elem_of_lookup_2 _ _ _ Hx)).
      apply beyond_3sigma_constant. by apply Forall_forall.
  - rewrite lookup_app_r by (rewrite length_replicate; lia).
    rewrite length_replicate, lookup_drop.
    replace (length arr - 1 + (i - (length arr - 1)))%nat with i by lia.
    rewrite decide_False; [done|].
    intros Hin. apply elem_of_outliers in Hin as (x & Hx & _).
    apply lookup_lt_Some in Hx. lia.
Qed.

Lemma rm_outliers_wipes_straight_line_witness :
  rm_outliers [10; 12; 14; 16]
  = replicate (length [10; 12; 14; 16] - 1) 0
    ++ drop (length [10; 12; 14; 16] - 1) [10; 12; 14; 16].
Proof.
  apply (rm_outliers_wipes_straight_line [10; 12; 14; 16] 2).
  repeat constructor.
Defined.

(** ** The range of [find_centers] *)

Lemma where_column_lt {A} (f : A → bool) (img : array2 A) (i r : nat) :
  r ∈ Np.where_ (map f (column img i)) → (r < nrows img)%nat.
Proof. intros H. by apply elem_of_where_column in H as [? _]. Qed.

Lemma mean_int_bounds (inds : list nat) (n : nat) :
  inds ≠ [] → Forall (fun r => (r < n)%nat) inds → 0 ≤ Np.mean_int inds < Z.of_nat n.
Proof.
  intros Hne Hall. unfold Np.mean_int.
  assert (Hsum : (foldr Nat.add 0 inds + length inds ≤ n * length inds)%nat).
  { clear Hne. induction Hall as [|r l Hr _ IH]; simpl; lia. }
  assert (Hlen : (0 < length inds)%nat) by (destruct inds; [done | simpl; lia]).
  split; [apply Z.div_pos; lia|].
  apply Z.div_lt_upper_bound; nia.
Qed.

Lemma rm_outliers_Forall (P : Z → Prop) (arr : list Z) :
  P 0 → Forall P arr → Forall P (rm_outliers arr).
Proof.
  intros H0 Harr. apply Forall_lookup. intros i x Hx.
  destruct (rm_outliers_only_resets arr i) as [E|E]; rewrite E in Hx.
  - by eapply Forall_lookup_1.
  - by injection Hx as <-.
Qed.

Lemma assign_from_Forall (P : Z → Prop) (k : nat) (arr : list Z) :
  P 0 → Forall P arr → Forall P (Np.assign_from k 0 arr).
Proof.
  intros H0 Harr. unfold Np.assign_from. apply Forall_app. split.
  - by apply Forall_take.
  - by apply Forall_replicate.
Qed.

Lemma lookup_assign_from_ge (k : nat) (v : Z) (arr : list Z) (i : nat) :
  (k ≤ i)%nat → (i < length arr)%nat → Np.assign_from k v arr !! i = Some v.
Proof.
  intros Hk Hi. unfold Np.assign_from.
  rewrite lookup_app_r by (rewrite length_take; lia).
  apply lookup_replicate_2. rewrite length_take. lia.
Qed.

(** X2: [find_centers] raises exactly on an image without rows, and
    then [IndexError]; otherwise it returns one center per column, each a
    row index of the image, and the centers from column [cutends] on are
    0. *)
Theorem find_centers_range (img : array2 Q) (cutends : option nat) :
  match find_centers img cutends with
  | inl e => e = IndexError ∧ nrows img = 0%nat
  | inr centers =>
      nrows img ≠ 0%nat ∧
      length centers = ncols img ∧
      Forall (fun c => 0 ≤ c < Z.of_nat (nrows img)) centers ∧
      ∀ k i, cutends = Some k → (k ≤ i < ncols img)%nat → centers !! i = Some 0
  end.
Proof.
  unfold find_centers. destruct (nrows img =? 0)%nat eqn:E.
  { apply Nat.eqb_eq in E. done. }
  apply Nat.eqb_neq in E.
  set (raw := map _ (seq 0 (ncols img))).
  assert (Hraw : Forall (fun c => 0 ≤ c < Z.of_nat (nrows img)) raw).
  { apply Forall_fmap, Forall_forall. intros i _. simpl.
    destruct (0 <? length _)%nat eqn:Hl; [|lia].
    apply mean_int_bounds.
    - intros Hnil. rewrite Hnil in Hl. done.
    - apply Forall_forall. intros r Hr. by eapply where_column_lt. }
  assert (Hlen : length (rm_outliers raw) = ncols img).
  { unfold raw. by rewrite length_rm_outliers, length_map, length_seq. }
  split; [done|]. destruct cutends as [k|].
  - rewrite length_assign_from. split; [done|]. split.
    + apply assign_from_Forall; [lia|]. apply rm_outliers_Forall; [lia | done].
    + intros k' i [= <-] Hi. apply lookup_assign_from_ge; lia.
  - split; [done|]. split; [|done].
    apply rm_outliers_Forall; [lia | done].
Qed.

(** ** The geometry of [f277_mask] *)

Lemma span_bounds (inds : list nat) (n lo hi : nat) :
  Forall (fun r => (r < n)%nat) inds → span inds = Some (lo, hi) →
  (lo < n)%nat ∧ (hi < n)%nat.
Proof.
  intros Hall. unfold span. destruct (1 <? length inds)%nat; [|done].
  destruct (inds !! 1%nat) as [a|] eqn:Ha; [|done].
  destruct (inds !! (length inds - 2)%nat) as [b|] eqn:Hb; [|done].
  intros [= <- <-]. split; eapply (Forall_lookup_1 _ _ _ _ Hall); eauto.
Qed.

Lemma f277_spans_lookup (mask : array2 bool) (c lo hi : nat) :
  f277_spans mask !! c = Some (Some (lo, hi)) →
  (c < ncols mask)%nat ∧ (lo < nrows mask)%nat ∧ (hi < nrows mask)%nat.
Proof.
  unfold f277_spans. rewrite list_lookup_fmap. intros H.
  destruct (seq 0 (ncols mask) !! c) as [c'|] eqn:Hc; [|done].
  apply lookup_seq in Hc as [-> Hc]. simpl in H. injection H as H.
  split; [done|]. eapply span_bounds; [|exact H].
  apply Forall_forall. intros r Hr.
  apply elem_of_where in Hr. unfold column in Hr.
  apply lookup_lt_Some in Hr. by rewrite length_map, length_seq in Hr.
Qed.

(** The rows of [mid] that pass the filter, for the columns from [k] on. *)
Lemma anchors_sorted_from (k : nat) (spans : list (option (nat * nat))) :
  let mid := imap (fun i sp =>
               match sp with
               | Some (lo, hi) => (Z.of_nat (k + i), Z.of_nat (lo + hi) / 2)
               | None => (0, 0)
               end) spans in
  StronglySorted (fun p q : Z * Z => p.1 < q.1)
                 (Np.select (map anchor_ok mid) mid) ∧
  Forall (fun p : Z * Z => Z.of_nat k ≤ p.1)
         (Np.select (map anchor_ok mid) mid).
Proof.
  revert k. induction spans as [|sp spans IH]; intros k; simpl.
  { split; constructor. }
  specialize (IH (S k)). simpl in IH.
  assert (Hext : imap ((fun i sp0 =>
                   match sp0 with
                   | Some (lo, hi) => (Z.of_nat (k + i), Z.of_nat (lo + hi) / 2)
                   | None => (0, 0)
                   end) ∘ S) spans
                 = imap (fun i sp0 =>
                   match sp0 with
                   | Some (lo, hi) => (Z.of_nat (S (k + i)), Z.of_nat (lo + hi) / 2)
                   | None => (0, 0)
                   end) spans).
  { apply imap_ext. intros i [[lo hi]|] _; simpl; [|done].
    by replace (k + S i)%nat with (S (k + i)) by lia. }
  rewrite Hext. destruct IH as [IHs IHf].
  assert (IHf' : Forall (fun p : Z * Z => Z.of_nat k ≤ p.1)
            (Np.select (map anchor_ok (imap (fun i sp0 =>
               match sp0 with
               | Some (lo, hi) => (Z.of_nat (S (k + i)), Z.of_nat (lo + hi) / 2)
               | None => (0, 0)
               end) spans)) (imap (fun i sp0 =>
               match sp0 with
               | Some (lo, hi) => (Z.of_nat (S (k + i)), Z.of_nat (lo + hi) / 2)
               | None => (0, 0)
               end) spans))).
  { eapply Forall_impl; [exact IHf|]. simpl. lia. }
  destruct (anchor_ok _) eqn:Hok; [|done].
  destruct sp as [[lo hi]|]; [|done]. simpl.
  rewrite Nat.add_0_r. split.
  - constructor; [done|]. eapply Forall_impl; [exact IHf|]. simpl. lia.
  - constructor; [simpl; lia | done].
Qed.

Section MaskGeometry.
Variable image_filtering :
  array2 Q -> res ((nat -> nat -> bool) * (nat -> nat -> Q)).

(** X3: what [f277_mask] returns.  The mask has the shape of the
    calibration image and entries 0 and 1, and is 0 outside the first 150
    rows and 500 columns; the anchors come in strictly increasing column
    order, with columns in 1..419 and rows in 1..149, inside the image;
    and the figure is drawn from plot level 5 on. *)
Theorem f277_mask_geometry (d : Data) (isplots : Z) shown f anchors :
  f277_mask image_filtering d isplots = (shown, inr (f, anchors)) →
  (nrows f = f277_rows d ∧ ncols f = f277_cols d) ∧
  (∀ r c, pix f r c = 0%Q ∨
          (pix f r c = 1%Q ∧ (r < 150)%nat ∧ (c < 500)%nat ∧
           (r < f277_rows d)%nat ∧ (c < f277_cols d)%nat)) ∧
  StronglySorted (fun p q : Z * Z => p.1 < q.1) anchors ∧
  Forall (fun p : Z * Z =>
            1 ≤ p.1 < 420 ∧ p.1 < Z.of_nat (f277_cols d) ∧
            1 ≤ p.2 < 150 ∧ p.2 < Z.of_nat (f277_rows d)) anchors ∧
  shown = (if 5 <=? isplots then [Figure "F277 Mask"] else []).
Proof.
  unfold f277_mask. intros H.
  apply M_bind_inr in H as (s1 & [z g] & s2 & [= <- Hz] & H & ->).
  apply M_bind_inr in H as (s3 & [] & s4 & Hw & H & ->).
  set (mask := Array2 (nrows (crop 150 500 (f277_img d)))
                      (ncols (crop 150 500 (f277_img d))) z) in *.
  unfold mret, M_ret in H.
  assert (Hs4 : s4 = []) by congruence.
  assert (Hf : f = f277_new_mask (f277_img d) (f277_spans mask)) by congruence.
  assert (Ha : anchors = Np.select (map anchor_ok (f277_mid (f277_spans mask)))
                                   (f277_mid (f277_spans mask))) by congruence.
  clear H. subst f anchors s4.
  assert (Hmr : (nrows mask ≤ 150 ∧ nrows mask ≤ f277_rows d)%nat)
    by (unfold mask, crop, f277_img; cbn [nrows ncols]; lia).
  assert (Hmc : (ncols mask ≤ 500 ∧ ncols mask ≤ f277_cols d)%nat)
    by (unfold mask, crop, f277_img; cbn [nrows ncols]; lia).
  clearbody mask.
  split; [done|]. split; [|split; [|split]].
  - intros r c. unfold f277_new_mask. cbn [pix].
    destruct (f277_spans mask !! c) as [[[lo hi]|]|] eqn:Hsp; try (left; reflexivity).
    destruct ((lo <=? r)%nat && (r <? hi)%nat) eqn:Hin; [right | left; reflexivity].
    apply f277_spans_lookup in Hsp as (Hc & Hlo & Hhi).
    apply andb_true_iff in Hin as [_ Hr%Nat.ltb_lt]. repeat split; lia.
  - apply (anchors_sorted_from 0 (f277_spans mask)).
  - apply Forall_forall. intros [pc pr] Hp.
    apply elem_of_select_map in Hp as [Hp Hok]. unfold anchor_ok in Hok.
    rewrite !andb_true_iff, !Z.ltb_lt in Hok. simpl in Hok.
    unfold f277_mid in Hp. apply list_elem_of_lookup in Hp as [i Hi].
    rewrite list_lookup_imap in Hi.
    destruct (f277_spans mask !! i) as [[[lo hi]|]|] eqn:Hsp; simpl in Hi;
      try done; [|injection Hi as <- <-; lia].
    injection Hi as <- <-.
    apply f277_spans_lookup in Hsp as (Hc & Hlo & Hhi). simpl.
    assert (Z.of_nat (lo + hi) / 2 < Z.of_nat (nrows mask)).
    { apply Z.div_lt_upper_bound; lia. }
    lia.
  - rewrite app_nil_r. simpl. destruct (5 <=? isplots); by injection Hw as <-.
Qed.
End MaskGeometry.

(** ** When the strategies return, and what they write *)

Lemma res_bind_assoc {A B C} (m : res A) (f : A → res B) (g : B → res C) :
  (m ≫= f) ≫= g = m ≫= (fun a => f a ≫= g).
Proof. by destruct m. Qed.

Lemma res_bind_ext {A B} (m : res A) (f g : A → res B) :
  (∀ a, f a = g a) → m ≫= f = m ≫= g.
Proof. intros H. destruct m; [done | apply H]. Qed.

Lemma shown_bind {A B} (m : M A) (f : A → M B) :
  (m ≫= f).1 = m.1 ++ match m.2 with inr a => (f a).1 | inl _ => [] end.
Proof.
  destruct m as [s [e|a]]; simpl; [by rewrite app_nil_r|].
  unfold mbind, M_bind. by destruct (f a).
Qed.

Section Outcomes.
Variable image_filtering :
  array2 Q -> res ((nat -> nat -> bool) * (nat -> nat -> Q)).
Variable polyfit : list Z -> list Z -> nat -> res (list Q).
Variable find_peaks : list Q -> Z -> nat -> list nat.
Variable cosmicray_lacosmic : array2 Q -> res (nat -> nat -> Q).
Variable write_csv : string -> Table -> res unit.

Abbreviation method_one := (mask_method_one image_filtering polyfit write_csv).
Abbreviation method_two :=
  (mask_method_two polyfit find_peaks cosmicray_lacosmic write_csv).

Lemma find_centers_rows img cutends centers :
  find_centers img cutends = inr centers → nrows img ≠ 0%nat.
Proof.
  unfold find_centers. destruct (nrows img =? 0)%nat eqn:E; [done|].
  intros _. by apply Nat.eqb_neq.
Qed.

(** X4: [mask_method_one] returns a table only for frames with rows
    and with as many calibration columns as science columns. *)
Theorem method_one_needs_same_columns (d : Data) (isplots : Z) (save : bool)
    (tab : Table) :
  outcome (method_one d isplots save) = inr tab →
  sci_cols d = f277_cols d ∧ sci_rows d ≠ 0%nat ∧ f277_rows d ≠ 0%nat.
Proof.
  intros H. apply outcome_inr in H as [shown H]. unfold mask_method_one in H.
  apply M_bind_inr in H as (? & g & ? & Hg & H & _).
  apply simplify_shape in Hg as [Hgr Hgc].
  apply M_bind_inr in H as (? & [f anchors] & ? & Hf & H & _).
  apply f277_mask_shape in Hf as [Hfr Hfc].
  apply M_bind_inr in H as (? & ? & ? & [= _ Hcg] & H & _).
  apply find_centers_rows in Hcg.
  apply M_bind_inr in H as (? & f_centers & ? & [= _ Hcf] & H & _).
  pose proof (find_centers_rows _ _ _ Hcf) as Hfrows.
  apply find_centers_length in Hcf.
  apply M_bind_inr in H as (? & fit1 & ? & [= _ H1] & H & _).
  apply clean_and_fit_lengths in H1.
  rewrite length_arange, length_rm_outliers, length_gcenters_1 in H1.
  split; [congruence|]. split; congruence.
Qed.

(** X5: with [save] set, each strategy writes exactly the table it
    returns without [save], under its fixed file name, and raises what the
    write raises. *)
Theorem save_writes_the_returned_table (d : Data) (isplots : Z) :
  outcome (method_one d isplots true)
  = (tab ← outcome (method_one d isplots false);
     write_csv "niriss_order_fits_method1.csv" tab;; mret tab) ∧
  outcome (method_two d isplots true)
  = (tab ← outcome (method_two d isplots false);
     write_csv "niriss_order_fits_method2.csv" tab;; mret tab).
Proof.
  split.
  - unfold mask_method_one.
    repeat (rewrite ?outcome_bind, ?res_bind_assoc; apply res_bind_ext;
            intros ?; try match goal with p : (_ * _)%type |- _ => destruct p end).
    unfold outcome, lift. simpl.
    destruct (write_csv _ _) as [e|[]]; reflexivity.
  - unfold mask_method_two.
    repeat (rewrite ?outcome_bind, ?res_bind_assoc; apply res_bind_ext;
            intros ?; repeat match goal with p : (_ * _)%type |- _ => destruct p end).
    unfold outcome, lift. simpl.
    destruct (write_csv _ _) as [e|[]]; reflexivity.
Qed.
End Outcomes.

(** ** The figures of a run *)

Lemma lift_bind_shown {A B} (r : res A) (f : A → M B) :
  lift r ≫= f = match r with inr a => f a | inl e => ([], inl e) end.
Proof. destruct r as [e|a]; [done|]. unfold lift, mbind, M_bind. by destruct (f a). Qed.

Lemma M_bind_pair {A B} (s : list event) (r : res A) (f : A → M B) :
  (s, r) ≫= f
  = match r with
    | inr a => (s ++ (f a).1, (f a).2)
    | inl e => (s, inl e)
    end.
Proof. destruct r as [e|a]; [done|]. unfold mbind, M_bind. by destruct (f a). Qed.

Ltac step_lift :=
  match goal with
  | |- context [lift ?r ≫= ?f] => rewrite (lift_bind_shown r f)
  end.

Ltac crush :=
  repeat (first [step_lift | rewrite M_bind_pair | progress cbn [fst snd]
                | match goal with
                  | |- context [match ?r with inl _ => _ | inr _ => _ end] =>
                      destruct r as [?|?]
                  | |- context [let '(_, _) := ?p in _] => destruct p
                  end]).

Ltac close :=
  unfold outcome, mret, M_ret; simpl;
  (split; [eexists; reflexivity | first [by intros ? [=] | reflexivity | done]]).

Section Figures.
Variable image_filtering :
  array2 Q -> res ((nat -> nat -> bool) * (nat -> nat -> Q)).
Variable polyfit : list Z -> list Z -> nat -> res (list Q).
Variable find_peaks : list Q -> Z -> nat -> list nat.
Variable cosmicray_lacosmic : array2 Q -> res (nat -> nat -> Q).
Variable write_csv : string -> Table -> res unit.

Abbreviation method_one := (mask_method_one image_filtering polyfit write_csv).
Abbreviation method_two :=
  (mask_method_two polyfit find_peaks cosmicray_lacosmic write_csv).

Lemma f277_mask_quiet d : (f277_mask image_filtering d 0).1 = [].
Proof.
  unfold f277_mask. step_lift.
  destruct (image_filtering _) as [e|[z g]]; [done|]. done.
Qed.

Lemma simplify_shown d i :
  simplify_niriss_img image_filtering d i
  = match image_filtering (Array2 (sci_rows d) (sci_cols d) (sci_max d)) with
    | inl e => ([], inl e)
    | inr (_, g) =>
        (if 6 <=? i then [Figure "Canny Edge, Gaussian Blurred"] else [],
         inr (Array2 (sci_rows d) (sci_cols d) g))
    end.
Proof.
  unfold simplify_niriss_img. step_lift.
  destruct (image_filtering _) as [e|[z g]]; [done|].
  by destruct (6 <=? i).
Qed.

(** X6: the figures a run draws.  [mask_method_one] draws the filter
    figure from level 6 on and then the order figure from level 5 on,
    [mask_method_two] the order figure from level 5 on; a run that raises
    has drawn a prefix of these, and a run that returns has drawn them
    all.  So nothing is drawn below level 5, and the calibration mask
    figure of [f277_mask] is never drawn by [mask_method_one]. *)
Theorem figures_by_level (d : Data) (isplots : Z) (save : bool) :
  let one := (if 6 <=? isplots then [Figure "Canny Edge, Gaussian Blurred"] else [])
             ++ (if 5 <=? isplots then [Figure "Order Approximation"] else []) in
  let two := if 5 <=? isplots then [Figure "Order Approximation"] else [] in
  ((method_one d isplots save).1 `prefix_of` one ∧
   (∀ tab, outcome (method_one d isplots save) = inr tab →
           (method_one d isplots save).1 = one)) ∧
  ((method_two d isplots save).1 `prefix_of` two ∧
   (∀ tab, outcome (method_two d isplots save) = inr tab →
           (method_two d isplots save).1 = two)).
Proof.
  intros one two. subst one two. split.
  - unfold mask_method_one. rewrite simplify_shown.
    pose proof (f277_mask_quiet d) as Hq.
    destruct (f277_mask image_filtering d 0) as [sf rf]. simpl in Hq. subst sf.
    unfold when, show.
    destruct (image_filtering _) as [e|[z g]], (6 <=? isplots), (5 <=? isplots),
      save; crush; close.
  - unfold mask_method_two, when, show.
    destruct (5 <=? isplots), save; crush; close.
Qed.
End Figures.

(** ** The column loop of [mask_method_two] *)

Lemma py_slice_all_but_last {A} (l : list A) :
  py_slice 0 (-1) l = take (length l - 1) l.
Proof.
  unfold py_slice, py_clip. simpl.
  replace (Z.to_nat (Z.max 0 (Z.of_nat (length l) + -1))) with (length l - 1)%nat
    by lia.
  by rewrite Nat.min_0_r, Nat.sub_0_r.
Qed.

Lemma py_slice_first {A} (n : nat) (l : list A) :
  py_slice 0 (Z.of_nat n) l = take n l.
Proof.
  unfold py_slice, py_clip.
  destruct (Z.of_nat n <? 0) eqn:E; [apply Z.ltb_lt in E; lia|].
  simpl. rewrite Nat.min_0_r, Nat.sub_0_r, Nat2Z.id.
  destruct (Nat.min_spec (length l) n) as [[Hlt ->]|[Hge ->]]; [|done].
  rewrite drop_0, (take_ge l (length l)) by done. by rewrite (take_ge l n) by lia.
Qed.

Lemma length_select_same {A B} (mask : list bool) (a : list A) (b : list B) :
  length a = length b → length (Np.select mask a) = length (Np.select mask b).
Proof.
  revert a b. induction mask as [|m mask IH]; intros [|x a] [|y b] H;
    simpl in *; try done.
  injection H as H. destruct m; simpl; by rewrite (IH a b).
Qed.

Lemma select_seq_sorted (mask : list bool) (k n : nat) :
  StronglySorted lt (Np.select mask (seq k n)) ∧
  Forall (fun i => (k ≤ i < k + n)%nat) (Np.select mask (seq k n)).
Proof.
  revert mask k. induction n as [|n IH]; intros [|m mask] k; simpl;
    try (split; constructor).
  destruct (IH mask (S k)) as [Hs Hf].
  assert (Hf' : Forall (fun i => (k ≤ i < k + S n)%nat)
                       (Np.select mask (seq (S k) n))).
  { eapply Forall_impl; [exact Hf|]. simpl. lia. }
  destruct m; [|done]. split.
  - constructor; [done|]. eapply Forall_impl; [exact Hf|]. simpl. lia.
  - constructor; [lia | done].
Qed.

Lemma select_arange_sorted (mask : list bool) (n : nat) :
  StronglySorted Z.lt (Np.select mask (Np.arange n)) ∧
  Forall (fun c => 0 ≤ c < Z.of_nat n) (Np.select mask (Np.arange n)).
Proof.
  unfold Np.arange. rewrite select_fmap.
  destruct (select_seq_sorted mask 0 n) as [Hs Hf]. split.
  - apply StronglySorted_fmap with (R1 := lt); [|done]. intros i j. simpl. lia.
  - apply Forall_fmap. eapply Forall_impl; [exact Hf|]. simpl. lia.
Qed.

Section ColumnPeaks.
Variable polyfit : list Z -> list Z -> nat -> res (list Q).
Variable find_peaks : list Q -> Z -> nat -> list nat.
Variable cosmicray_lacosmic : array2 Q -> res (nat -> nat -> Q).
Variable write_csv : string -> Table -> res unit.

Abbreviation method_two :=
  (mask_method_two polyfit find_peaks cosmicray_lacosmic write_csv).

(** X7: one turn of the column loop of [mask_method_two].  It raises
    [IndexError] exactly for a column the calibration image does not have
    and [ValueError] exactly when more than six peaks are kept; otherwise
    the row of [peaks] holds the kept peaks followed by zeros, six entries
    in all and none negative, and for a column before 900 only peaks at
    rows beyond 40 are kept. *)
Theorem column_peaks_cases (summed_f277 new_ccd : array2 Q) (i : nat) :
  let found := map Z.of_nat (find_peaks (column new_ccd i) (height_for i) 10) in
  let kept := if (i <? 900)%nat then Np.select (map (Z.ltb 40) found) found
              else found in
  match column_peaks find_peaks summed_f277 new_ccd i with
  | inl e =>
      (e = IndexError ∧ (ncols summed_f277 ≤ i)%nat) ∨
      (e = ValueError ∧ (i < ncols summed_f277)%nat ∧ (6 < length kept)%nat)
  | inr (_, row) =>
      (i < ncols summed_f277)%nat ∧ length row = 6%nat ∧
      row = kept ++ replicate (6 - length kept) 0 ∧
      Forall (fun v => 0 ≤ v) row ∧
      ((i < 900)%nat → Forall (fun v => v = 0 ∨ 40 < v) row)
  end.
Proof.
  intros found kept. unfold column_peaks. fold found. fold kept.
  destruct (ncols summed_f277 <=? i)%nat eqn:Hc.
  { left. apply Nat.leb_le in Hc. done. }
  apply Nat.leb_gt in Hc.
  destruct (6 <? length kept)%nat eqn:H6.
  { right. apply Nat.ltb_lt in H6. done. }
  apply Nat.ltb_ge in H6.
  split; [done|]. split; [rewrite length_app, length_replicate; lia|].
  split; [done|].
  assert (Hfound : Forall (fun v => 0 ≤ v) found).
  { apply Forall_fmap, Forall_forall. intros k _. simpl. lia. }
  split.
  - apply Forall_app. split; [|apply Forall_replicate; lia].
    unfold kept. destruct (i <? 900)%nat; [by apply Forall_select | done].
  - intros Hi. apply Forall_app. split; [|apply Forall_replicate; by left].
    unfold kept. apply Nat.ltb_lt in Hi. rewrite Hi.
    apply Forall_forall. intros v Hv.
    apply elem_of_select_map in Hv as [_ Hv%Z.ltb_lt]. by right.
Qed.

End ColumnPeaks.

(** ** The points of a boundary fit *)

Lemma elem_of_zip_arange {A} (l : list A) (c : Z) (v : A) :
  (c, v) ∈ zip (Np.arange (length l)) l ↔ 0 ≤ c ∧ l !! Z.to_nat c = Some v.
Proof.
  rewrite elem_of_lookup_zip_with. split.
  - intros (j & c' & v' & [= -> ->] & Hc & Hv).
    rewrite lookup_arange in Hc. case_decide; [|done]. injection Hc as <-.
    rewrite Nat2Z.id. split; [lia | done].
  - intros [Hc Hv]. exists (Z.to_nat c), c, v. split; [done|]. split; [|done].
    rewrite lookup_arange. apply lookup_lt_Some in Hv.
    rewrite decide_True by done. f_equal. lia.
Qed.

Section BoundaryPoints.
Variable polyfit : list Z -> list Z -> nat -> res (list Q).
Variable find_peaks : list Q -> Z -> nat -> list nat.
Variable cosmicray_lacosmic : array2 Q -> res (nat -> nat -> Q).
Variable write_csv : string -> Table -> res unit.

Abbreviation method_two :=
  (mask_method_two polyfit find_peaks cosmicray_lacosmic write_csv).

(** X8: the points of a boundary fit.  The calibration part is [xf]
    without its last column for the first two boundaries and the first 250
    columns of [xf] for the others; the science part holds every peak
    above 0 of a column beyond the last calibration column, none is
    rejected; and [IndexError] is raised exactly when there is no
    calibration column. *)
Theorem boundary_points_cases (xf : list Z) (f277_peaks : list (Z * Z))
    (peaks : list (list Z)) (ind : nat) :
  let side : Z * Z → Z :=
    if (ind =? 0)%nat || (ind =? 2)%nat then fst else snd in
  let keep {A} (l : list A) : list A :=
    if (ind <? 2)%nat then take (length l - 1) l else take 250 l in
  match boundary_points xf f277_peaks (Np.arange (length peaks)) peaks ind with
  | inl e => e = IndexError ∧ xf = []
  | inr (xtot, ytot) =>
      ∃ xf_last sx sy,
        last xf = Some xf_last ∧
        xtot = keep xf ++ sx ∧ ytot = keep (map side f277_peaks) ++ sy ∧
        length sx = length sy ∧
        ∀ c y, (c, y) ∈ zip sx sy
               ↔ xf_last < c ∧ 0 ≤ c ∧ 0 < y ∧
                 ∃ row, peaks !! Z.to_nat c = Some row ∧
                        default 0 (row !! ind) = y
  end.
Proof.
  intros side keep. unfold boundary_points.
  change (py_slice 5 (-5) [_]) with (@nil (list nat)).
  cbn [index_tuple]. unfold mbind at 1 2, res_bind.
  set (x := Np.arange (length peaks)).
  set (col := map (fun row => default 0 (row !! ind)) peaks).
  set (q := map (Z.ltb 0) col).
  destruct (last xf) as [xf_last|] eqn:Hlast.
  2:{ apply last_None in Hlast. done. }
  simpl. exists xf_last. eexists. eexists. split; [done|].
  assert (Hkeep : ∀ A (l : list A),
            py_slice 0 (if (ind <? 2)%nat then -1 else 250) l = keep A l).
  { intros A l. unfold keep. destruct (ind <? 2)%nat.
    - apply py_slice_all_but_last.
    - apply (py_slice_first 250). }
  rewrite !Hkeep. fold side.
  split; [reflexivity|]. split; [reflexivity|].
  assert (Hlen : length (Np.select q x) = length (Np.select q col)).
  { apply length_select_same. unfold x, col. by rewrite length_arange, length_map. }
  split; [by apply length_select_same|].
  intros c y. rewrite zip_select.
  assert (Hx : map (Z.ltb xf_last) (Np.select q x)
               = map (Z.ltb xf_last ∘ fst) (zip (Np.select q x) (Np.select q col))).
  { rewrite list_fmap_compose, fst_zip by lia. done. }
  rewrite Hx, elem_of_select_map, zip_select.
  assert (Hq : q = map (Z.ltb 0 ∘ snd) (zip x col)).
  { unfold q. rewrite list_fmap_compose, snd_zip; [done|].
    unfold x, col. by rewrite length_arange, length_map. }
  rewrite Hq, elem_of_select_map. simpl.
  assert (Hzip : (c, y) ∈ zip x col
                 ↔ 0 ≤ c ∧ ∃ row, peaks !! Z.to_nat c = Some row ∧
                                  default 0 (row !! ind) = y).
  { unfold x. replace (length peaks) with (length col)
      by (unfold col; apply length_map).
    rewrite elem_of_zip_arange. unfold col. rewrite list_lookup_fmap.
    split.
    - intros [Hc Hrow]. split; [done|].
      destruct (peaks !! Z.to_nat c) as [row|]; [|done].
      injection Hrow as <-. eauto.
    - intros [Hc (row & -> & <-)]. done. }
  rewrite Hzip, !Z.ltb_lt. split.
  - intros [[[? Hrow] Hy] Hc]. done.
  - intros (Hc & H0 & Hy & Hrow). done.
Qed.
End BoundaryPoints.

(** ** The peak tables *)

Section PeakTables.
Variable polyfit : list Z -> list Z -> nat -> res (list Q).
Variable find_peaks : list Q -> Z -> nat -> list nat.
Variable cosmicray_lacosmic : array2 Q -> res (nat -> nat -> Q).
Variable write_csv : string -> Table -> res unit.

Abbreviation method_two :=
  (mask_method_two polyfit find_peaks cosmicray_lacosmic write_csv).

Lemma column_peaks_f277_row summed_f277 new_ccd i row p :
  column_peaks find_peaks summed_f277 new_ccd i = inr (row, p) →
  (i < ncols summed_f277)%nat ∧ length p = 6%nat ∧
  (row.1 ≠ 0 ↔ ∃ a b, find_peaks (column summed_f277 i) 100000 10 = [a; b]
                       ∧ a ≠ 0%nat).
Proof.
  unfold column_peaks. destruct (_ <=? _)%nat eqn:Hc; [done|].
  apply Nat.leb_gt in Hc.
  destruct (6 <? _)%nat eqn:H6; [done|]. apply Nat.ltb_ge in H6.
  intros [= <- <-]. split; [done|].
  split; [rewrite length_app, length_replicate; lia|].
  destruct (find_peaks (column summed_f277 i) 100000 10) as [|a [|b [|? ?]]];
    simpl; split; try done; try (by intros (? & ? & [=] & _)).
  - intros Ha. exists a, b. split; [done | lia].
  - intros (a' & b' & [= <- <-] & Ha). lia.
Qed.

Lemma peak_tables_inr (d : Data) xf f277_peaks x peaks :
  peak_tables find_peaks cosmicray_lacosmic d = inr (xf, f277_peaks, x, peaks) →
  (sci_cols d ≤ f277_cols d)%nat ∧
  x = Np.arange (sci_cols d) ∧
  length peaks = sci_cols d ∧ Forall (fun row => length row = 6%nat) peaks ∧
  length f277_peaks = length xf ∧
  StronglySorted Z.lt xf ∧
  ∀ c, c ∈ xf
       ↔ 0 ≤ c < Z.of_nat (sci_cols d) ∧
         ∃ a b, find_peaks (column (Array2 (f277_rows d) (f277_cols d) (f277_sum d))
                                   (Z.to_nat c)) 100000 10 = [a; b]
                ∧ a ≠ 0%nat.
Proof.
  unfold peak_tables. intros H.
  apply res_bind_inr in H as (cleaned & _ & H).
  apply res_bind_inr in H as (rows & Hrows & H).
  unfold f277_boundaries in H. cbn [ncols nrows] in H.
  injection H as <- <- <- <-.
  apply mapM_res_inr in Hrows.
  set (f277 := Array2 (f277_rows d) (f277_cols d) (f277_sum d)) in *.
  set (ccd := Array2 (sci_rows d) (sci_cols d) cleaned) in *.
  assert (Hlen : length rows = sci_cols d).
  { apply Forall2_length in Hrows. by rewrite length_seq in Hrows. }
  assert (Hrow : ∀ i r p, rows !! i = Some (r, p) →
            (i < sci_cols d)%nat ∧
            column_peaks find_peaks f277 ccd i = inr (r, p)).
  { intros i r p Hi. destruct (Forall2_lookup_r _ _ _ _ _ Hrows Hi) as (j & Hj & Hc).
    apply lookup_seq in Hj as [-> ?]. done. }
  assert (Hcols : (sci_cols d ≤ f277_cols d)%nat).
  { destruct (sci_cols d) as [|n] eqn:E; [lia|].
    destruct (lookup_lt_is_Some_2 rows n ltac:(lia)) as [[r p] Hi].
    apply Hrow in Hi as [_ Hi]. apply column_peaks_f277_row in Hi as [Hi _].
    simpl in Hi. lia. }
  set (full := (map fst rows ++ replicate (f277_cols d - length (map fst rows)) (0, 0))).
  assert (Hfull : length full = f277_cols d).
  { unfold full. rewrite length_app, length_replicate, length_map. lia. }
  set (good := map (fun r : Z * Z => negb (r.1 =? 0)) full).
  split; [done|]. split; [done|]. split; [by rewrite length_map|].
  split.
  { apply Forall_fmap, Forall_forall. intros [r p] Hin. simpl.
    apply list_elem_of_lookup in Hin as [i Hi].
    apply Hrow in Hi as [_ Hi]. by apply column_peaks_f277_row in Hi as (_ & ? & _). }
  split.
  { apply length_select_same. by rewrite Hfull, length_arange. }
  split; [apply select_arange_sorted|].
  intros c.
  assert (Hxf : Np.select good (Np.arange (f277_cols d))
                = (Np.select good (zip (Np.arange (length full)) full)).*1).
  { rewrite <- select_fmap, fst_zip; [by rewrite Hfull|].
    rewrite length_arange. lia. }
  rewrite Hxf, list_elem_of_fmap.
  assert (Hgood : good = map ((fun r : Z * Z => negb (r.1 =? 0)) ∘ snd)
                             (zip (Np.arange (length full)) full)).
  { unfold good. rewrite list_fmap_compose, snd_zip; [done|].
    rewrite length_arange. lia. }
  rewrite Hgood. split.
  - intros ([c' r] & -> & Hin). simpl.
    apply elem_of_select_map in Hin as [Hin Hnz]. simpl in Hnz.
    apply negb_true_iff, Z.eqb_neq in Hnz.
    apply elem_of_zip_arange in Hin as [Hc Hin].
    unfold full in Hin. apply lookup_app_Some in Hin as [Hin|[_ Hin]].
    + rewrite list_lookup_fmap in Hin.
      destruct (rows !! Z.to_nat c') as [[r' p]|] eqn:Hi; [|done].
      injection Hin as ->. apply Hrow in Hi as [Hlt Hi].
      apply column_peaks_f277_row in Hi as (_ & _ & Hi). simpl in Hi.
      split; [lia|]. by apply Hi.
    + apply lookup_replicate in Hin as [-> _]. done.
  - intros [Hc (a & b & Hfp & Ha)].
    destruct (lookup_lt_is_Some_2 rows (Z.to_nat c) ltac:(lia)) as [[r p] Hi].
    pose proof (Hrow _ _ _ Hi) as [_ Hcp].
    apply column_peaks_f277_row in Hcp as (_ & _ & Hnz). simpl in Hnz.
    exists (c, r). split; [done|].
    apply elem_of_select_map. split.
    + apply elem_of_zip_arange. split; [lia|].
      unfold full. rewrite lookup_app_l by (rewrite length_map; lia).
      by rewrite list_lookup_fmap, Hi.
    + simpl. apply negb_true_iff, Z.eqb_neq, Hnz. eauto.
Qed.

(** X9: the tables [mask_method_two] builds before fitting.  They exist
    only when the calibration image has at least as many columns as the
    science frame; [peaks] has one row of six entries per science column;
    [xf] lists, in increasing order, exactly the science columns in which
    the calibration image has two peaks, the first not at row 0; and
    [f277_peaks] has one row per entry of [xf]. *)
Theorem peak_tables_shape (d : Data) xf f277_peaks x peaks :
  peak_tables find_peaks cosmicray_lacosmic d = inr (xf, f277_peaks, x, peaks) →
  (sci_cols d ≤ f277_cols d)%nat ∧
  x = Np.arange (sci_cols d) ∧
  length peaks = sci_cols d ∧ Forall (fun row => length row = 6%nat) peaks ∧
  length f277_peaks = length xf ∧
  StronglySorted Z.lt xf ∧
  ∀ c, c ∈ xf
       ↔ 0 ≤ c < Z.of_nat (sci_cols d) ∧
         ∃ a b, find_peaks (column (Array2 (f277_rows d) (f277_cols d) (f277_sum d))
                                   (Z.to_nat c)) 100000 10 = [a; b]
                ∧ a ≠ 0%nat.
Proof. apply peak_tables_inr. Qed.

Lemma boundary_fit_needs_xf xf f277_peaks x peaks ind fit :
  boundary_fit polyfit xf f277_peaks x peaks ind = inr fit → xf ≠ [].
Proof.
  unfold boundary_fit, boundary_points. intros H.
  apply res_bind_inr in H as (pts & H & _).
  apply res_bind_inr in H as (y & _ & H).
  apply res_bind_inr in H as (xg & _ & H).
  apply res_bind_inr in H as (xf_last & H & _).
  intros ->. done.
Qed.

(** X10: [mask_method_two] returns a table only when the calibration
    image is at least as wide as the science frame and has, in some
    science column, exactly two peaks of which the first is not at row 0. *)
Theorem method_two_needs_calibration (d : Data) (isplots : Z) (save : bool)
    (tab : Table) :
  outcome (method_two d isplots save) = inr tab →
  (sci_cols d ≤ f277_cols d)%nat ∧
  ∃ c a b, (c < sci_cols d)%nat ∧ a ≠ 0%nat ∧
    find_peaks (column (Array2 (f277_rows d) (f277_cols d) (f277_sum d)) c)
               100000 10 = [a; b].
Proof.
  intros H. apply outcome_inr in H as [shown H]. unfold mask_method_two in H.
  apply M_bind_inr in H as (? & [[[xf fp] x] peaks] & ? & [= _ Hp] & H & _).
  apply M_bind_inr in H as (? & fit0 & ? & [= _ H0] & _).
  apply boundary_fit_needs_xf in H0.
  apply peak_tables_inr in Hp as (Hc & _ & _ & _ & _ & _ & Hxf).
  split; [done|]. destruct xf as [|c xf]; [done|].
  destruct (Hxf c) as [Hin _]. destruct Hin as [Hr (a & b & Hfp & Ha)]; [by left|].
  exists (Z.to_nat c), a, b. split; [lia|]. done.
Qed.
End PeakTables.

(** * More of readEPF.py *)

(** ** Cleaning the lines of a parameter file *)

Section TextFacts.
Context {char : Type} `{Countable char}.
Variable isspace : char -> bool.
Variable hash space : char.

Abbreviation split := (EPF.split isspace).
Abbreviation lstrip := (EPF.lstrip isspace).
Abbreviation strip := (EPF.strip isspace).
Abbreviation join := (EPF.join space).
Abbreviation before_hash := (EPF.before_hash hash).
Abbreviation clean_line := (EPF.clean_line isspace hash space).
Abbreviation read := (EPF.read isspace hash space).

Abbreviation token := (EPF.token isspace).

Lemma split_cons_space c l : isspace c = true → split (c :: l) = split l.
Proof. intros Hc. simpl. by rewrite Hc. Qed.

Lemma split_cons_nonspace c rest :
  isspace c = false →
  split (c :: rest)
  = match rest with
    | [] => [[c]]
    | c' :: _ =>
        if isspace c' then [c] :: split rest
        else match split rest with
             | w :: ws => (c :: w) :: ws
             | [] => [[c]]
             end
    end.
Proof. intros Hc. simpl. by rewrite Hc. Qed.

Lemma split_tokens l : Forall token (split l).
Proof.
  induction l as [|c rest IH]; [constructor|]. simpl.
  destruct (isspace c) eqn:Hc; [done|].
  destruct rest as [|c' rest']; [repeat constructor; done|].
  destruct (isspace c') eqn:Hc'.
  - constructor; [|done]. split; [done | by repeat constructor].
  - destruct (EPF.split isspace (c' :: rest')) as [|w ws] eqn:Hs.
    + repeat constructor; done.
    + apply Forall_cons in IH as [[Hw Hall] IH]. constructor; [|done].
      split; [done | by constructor].
Qed.

Lemma split_spaces sp : Forall (fun c => isspace c = true) sp → split sp = [].
Proof. induction 1 as [|c sp Hc _ IH]; [done|]. by rewrite split_cons_space. Qed.

Lemma split_token_then_space w l :
  token w → (∀ c, head l = Some c → isspace c = true) →
  split (w ++ l) = w :: split l.
Proof.
  intros [Hne Hw] Hl. induction Hw as [|c w Hc Hw IH]; [done|].
  destruct w as [|c2 w'].
  - simpl. rewrite Hc. destruct l as [|c' l']; [done|].
    rewrite (Hl c') by done. done.
  - specialize (IH ltac:(done)).
    apply Forall_cons in Hw as [Hc2 _].
    change (split ((c :: c2 :: w') ++ l))
      with (if isspace c then split ((c2 :: w') ++ l)
            else if isspace c2 then [c] :: split ((c2 :: w') ++ l)
            else match split ((c2 :: w') ++ l) with
                 | w :: ws => (c :: w) :: ws
                 | [] => [[c]]
                 end).
    by rewrite Hc, Hc2, IH.
Qed.

Hypothesis space_is_space : isspace space = true.

Lemma split_join ws : Forall token ws → split (join ws) = ws.
Proof.
  induction 1 as [|w ws Hw Hws IH]; [done|].
  destruct ws as [|w2 ws'].
  - simpl. rewrite <- (app_nil_r w) at 1.
    by rewrite split_token_then_space.
  - change (join (w :: w2 :: ws')) with (w ++ space :: join (w2 :: ws')).
    rewrite split_token_then_space; [|done|by intros c [= <-]].
    by rewrite split_cons_space, IH.
Qed.

Lemma split_lstrip l : split (lstrip l) = split l.
Proof.
  induction l as [|c l IH]; [done|]. simpl.
  destruct (isspace c) eqn:Hc; [done|]. simpl. by rewrite Hc.
Qed.

Lemma lstrip_decomp l :
  ∃ sp, l = sp ++ lstrip l ∧ Forall (fun c => isspace c = true) sp.
Proof.
  induction l as [|c l (sp & Hl & Hsp)]; [by exists []|]. simpl.
  destruct (isspace c) eqn:Hc.
  - exists (c :: sp). split; [by rewrite Hl at 1 | by constructor].
  - by exists [].
Qed.

Lemma split_app_spaces l sp :
  Forall (fun c => isspace c = true) sp → split (l ++ sp) = split l.
Proof.
  intros Hsp. induction l as [|c rest IH]; [by apply split_spaces|].
  change (split ((c :: rest) ++ sp)) with (split (c :: (rest ++ sp))).
  destruct (isspace c) eqn:Hc; [by rewrite !split_cons_space|].
  rewrite !split_cons_nonspace by done.
  destruct rest as [|c' rest'].
  - destruct Hsp as [|s sp Hs Hsp]; [done|].
    change ([] ++ s :: sp) with (s :: sp). lazy beta iota.
    by rewrite Hs, (split_spaces (s :: sp)) by by constructor.
  - change ((c' :: rest') ++ sp) with (c' :: (rest' ++ sp)) in *.
    lazy beta iota. destruct (isspace c'); by rewrite IH.
Qed.

Lemma split_strip l : split (strip l) = split l.
Proof.
  unfold EPF.strip. rewrite <- (split_lstrip l).
  set (m := lstrip l).
  destruct (lstrip_decomp (reverse m)) as (sp & Hl & Hsp).
  apply (f_equal reverse) in Hl. rewrite reverse_involutive, reverse_app in Hl.
  transitivity (split (reverse (lstrip (reverse m)) ++ reverse sp)).
  - symmetry. apply split_app_spaces. by apply Forall_reverse.
  - by rewrite <- Hl.
Qed.

Lemma split_clean_line l : split (clean_line l) = split (before_hash l).
Proof.
  unfold EPF.clean_line. rewrite split_join by apply split_tokens.
  apply split_strip.
Qed.

Lemma join_nil ws : Forall token ws → join ws = [] → ws = [].
Proof.
  intros Hws. destruct Hws as [|w ws [Hw _] _]; [done|].
  destruct ws; simpl; [done|]. by destruct w.
Qed.

Lemma before_hash_no_hash l : hash ∉ before_hash l.
Proof.
  induction l as [|c l IH]; simpl; [apply not_elem_of_nil|].
  case_decide; [apply not_elem_of_nil|]. by apply not_elem_of_cons.
Qed.

Lemma before_hash_id l : hash ∉ l → before_hash l = l.
Proof.
  induction l as [|c l IH]; [done|]. intros [Hc Hl]%not_elem_of_cons. simpl.
  rewrite decide_False by done. by rewrite IH.
Qed.

Lemma elem_of_lstrip c l : c ∈ lstrip l → c ∈ l.
Proof.
  induction l as [|c' l IH]; [done|]. simpl.
  destruct (isspace c'); [|done]. intros Hc. right. by apply IH.
Qed.

Lemma elem_of_strip c l : c ∈ strip l → c ∈ l.
Proof.
  unfold EPF.strip. rewrite elem_of_reverse. intros Hc%elem_of_lstrip.
  rewrite elem_of_reverse in Hc. by apply elem_of_lstrip.
Qed.

Lemma elem_of_split c w l : w ∈ split l → c ∈ w → c ∈ l.
Proof.
  revert w. induction l as [|c0 rest IH]; intros w; simpl.
  { by intros ?%elem_of_nil. }
  destruct (isspace c0).
  { intros Hw Hc. right. by eapply IH. }
  destruct rest as [|c' rest'].
  { intros ->%list_elem_of_singleton Hc. done. }
  destruct (isspace c').
  { intros [->|Hw]%elem_of_cons Hc.
    - apply list_elem_of_singleton in Hc as ->. by left.
    - right. by eapply IH. }
  destruct (EPF.split isspace (c' :: rest')) as [|w0 ws].
  { intros ->%list_elem_of_singleton Hc%list_elem_of_singleton. subst. by left. }
  intros [->|Hw]%elem_of_cons Hc.
  - apply elem_of_cons in Hc as [->|Hc]; [by left|].
    right. apply (IH w0); [by left | done].
  - right. apply (IH w); [by right | done].
Qed.

Lemma elem_of_join c ws : c ∈ join ws → c = space ∨ ∃ w, w ∈ ws ∧ c ∈ w.
Proof.
  induction ws as [|w ws IH]; [by intros ?%elem_of_nil|].
  destruct ws as [|w2 ws'].
  - simpl. intros Hc. right. exists w. split; [by left | done].
  - change (join (w :: w2 :: ws')) with (w ++ space :: join (w2 :: ws')).
    intros [Hc|[->|Hc]%elem_of_cons]%elem_of_app.
    + right. exists w. split; [by left | done].
    + by left.
    + destruct (IH Hc) as [->|(w' & Hw' & Hc')]; [by left|].
      right. exists w'. split; [by right | done].
Qed.

Hypothesis hash_not_space : isspace hash = false.

Lemma clean_line_no_hash l : hash ∉ clean_line l.
Proof.
  unfold EPF.clean_line. intros [Heq|(w & Hw & Hc)]%elem_of_join.
  - rewrite <- Heq in space_is_space. congruence.
  - eapply before_hash_no_hash, elem_of_strip, elem_of_split; eauto.
Qed.

Lemma clean_line_fixed l : clean_line l = join (split (clean_line l)).
Proof. by rewrite split_clean_line, <- split_strip. Qed.

Lemma clean_line_idempotent l : clean_line (clean_line l) = clean_line l.
Proof.
  unfold EPF.clean_line at 1.
  rewrite before_hash_id by apply clean_line_no_hash.
  rewrite split_strip. symmetry. apply clean_line_fixed.
Qed.

Lemma elem_of_read line lines :
  line ∈ read lines ↔ line ≠ [] ∧ ∃ l, l ∈ lines ∧ line = clean_line l.
Proof.
  unfold EPF.read. rewrite list_elem_of_In, filter_In, <- list_elem_of_In.
  rewrite negb_true_iff, bool_decide_eq_false, list_elem_of_fmap. split.
  - intros [(l & -> & Hl) Hne]. eauto.
  - intros [Hne (l & Hl & ->)]. eauto.
Qed.

(** X11: with [' '] a whitespace character and ['#'] none, every line
    that [EPF.read] keeps is its tokens joined by single spaces: it has at
    least one token, holds no ['#'], and its tokens are not empty and free
    of whitespace. *)
Theorem cleanlines_are_normal (lines : list (list char)) (line : list char) :
  line ∈ read lines →
  split line ≠ [] ∧ line = join (split line) ∧ (hash ∉ line) ∧
  Forall token (split line).
Proof.
  intros [Hne (l & _ & ->)]%elem_of_read.
  split; [|split; [apply clean_line_fixed|split;
                   [apply clean_line_no_hash | apply split_tokens]]].
  intros Hs. apply Hne. by rewrite clean_line_fixed, Hs.
Qed.

(** X12: cleaning is idempotent: [EPF.read] applied to the lines it kept
    returns them unchanged. *)
Theorem read_idempotent (lines : list (list char)) :
  read (read lines) = read lines.
Proof.
  unfold EPF.read. induction lines as [|l lines IH]; [done|]. simpl.
  destruct (bool_decide (clean_line l = [])) eqn:E; simpl; [done|].
  rewrite clean_line_idempotent, E. simpl. by f_equal.
Qed.

(** X13: a line is kept exactly when there is a token before its first
    ['#'], and the kept line has the tokens of that part, in order. *)
Theorem clean_line_keeps_tokens (l : list char) :
  split (clean_line l) = split (before_hash l) ∧
  (clean_line l = [] ↔ split (before_hash l) = []).
Proof.
  split; [apply split_clean_line|]. rewrite <- split_clean_line. split.
  - by intros ->.
  - intros Hs. by rewrite clean_line_fixed, Hs.
Qed.


Context {V : Type}.
Variable eval : list char -> option V.
Variable str : list char -> V.

Abbreviation values_of := (EPF.values_of eval str).
Abbreviation params_step := (EPF.params_step isspace eval str).



End TextFacts.

Import EPFParameters.

(** ** [Parameter.values] and [Parameters.__setattr__] *)

Lemma init_inr (name value pt mn mx prior : pyval) (p : obj) :
  init name value pt mn mx prior = inr p →
  ∃ v' pt' mn' mx' s,
    match value with
    | PyList l =>
        l = [v'] ∧ pt' = pt ∧ mn' = mn ∧ mx' = mx ∨ l = [v'; pt'; mn'; mx']
    | _ => v' = value ∧ pt' = pt ∧ mn' = mn ∧ mx' = mx
    end ∧
    pt' = PyStr s ∧ s ∈ ptypes ∧
    p = <["prior" := prior]> (<["_ptype" := pt']> (<["mx" := mx']>
          (<["mn" := mn']> (<["value" := v']> (<["name" := name]> ∅))))).
Proof.
  unfold init. intros H.
  apply res_bind_inr in H as ([[[v' pt'] mn'] mx'] & Hun & H).
  destruct (ptype_setter _ pt') as [self' raised] eqn:Hset.
  destruct raised as [e|[]]; [done|]. injection H as <-.
  apply ptype_setter_stores in Hset as (s & -> & Hs & ->).
  exists v', (PyStr s), mn', mx', s. split; [|done].
  destruct value as [| | | | |l|]; try (injection Hun as -> -> -> ->; done).
  destruct l as [|v [|a [|b [|c [|d l]]]]]; try done;
    injection Hun as -> -> -> ->; auto.
Qed.

Lemma values_of_built (name v pt mn mx prior : pyval) :
  values (<["prior" := prior]> (<["_ptype" := pt]> (<["mx" := mx]>
           (<["mn" := mn]> (<["value" := v]> (<["name" := name]> ∅))))))
  = inr (List.filter not_none [name; v; pt; mn; mx; prior]).
Proof.
  unfold values, getattr, ptype.
  repeat (rewrite ?lookup_insert_eq, ?lookup_insert_ne by done; cbn [mbind res_bind]).
  reflexivity.
Qed.

(** X15: the values of a fresh [Parameter] are its name, value, ptype,
    mn, mx and prior without those that are [None], in this order.  A list
    given as value has one entry, the value, or four, which are value,
    ptype, mn and mx and replace the arguments of these names. *)
Theorem values_after_init (name value pt mn mx prior : pyval) (p : obj) :
  init name value pt mn mx prior = inr p →
  ∃ v' pt' mn' mx',
    values p = inr (List.filter not_none [name; v'; pt'; mn'; mx'; prior]) ∧
    match value with
    | PyList l =>
        l = [v'] ∧ pt' = pt ∧ mn' = mn ∧ mx' = mx ∨ l = [v'; pt'; mn'; mx']
    | _ => v' = value ∧ pt' = pt ∧ mn' = mn ∧ mx' = mx
    end.
Proof.
  intros H. apply init_inr in H as (v' & pt' & mn' & mx' & s & Hun & _ & _ & ->).
  exists v', pt', mn', mx'. split; [apply values_of_built|done].
Qed.

Lemma setattr_plain (self : parameters) (item : string) (v : value) :
  ¬ special item →
  setattr self item v
  = match as_list v ≫= new_Parameter item with
    | inl e => (self, inl e)
    | inr p =>
        let self' := {| attrs := <[item := p]> (attrs self);
                        params := params self; dict := dict self;
                        epf := epf self |} in
        match values p, dict self with
        | inl e, _ => (self', inl e)
        | inr vals, PyDict m =>
            ({| attrs := attrs self'; params := params self';
                dict := PyDict (<[item := drop 1 vals]> m);
                epf := epf self' |}, inr tt)
        | inr _, Py _ => (self', inl TypeError)
        end
    end.
Proof.
  unfold special, setattr. intros Hs.
  rewrite !bool_decide_eq_false_2 by tauto. reflexivity.
Qed.

Lemma new_Parameter_inr (item : string) (l : list pyval) (p : obj) :
  new_Parameter item l = inr p →
  ∃ v pt mn mx prior,
    l = take (length l) [v; pt; mn; mx; prior] ∧
    (2 ≤ length l ≤ 5)%nat ∧
    List.filter not_none l = List.filter not_none [v; pt; mn; mx; prior] ∧
    init (PyStr item) v pt mn mx prior = inr p.
Proof.
  unfold new_Parameter.
  destruct l as [|v [|pt [|mn [|mx [|prior [|x l]]]]]]; try done; intros Hp.
  - exists v, pt, PyNone, PyNone, PyNone. cbn. repeat split; (done || lia).
  - exists v, pt, mn, PyNone, PyNone. cbn. repeat split; try (done || lia).
  - exists v, pt, mn, mx, PyNone. cbn. repeat split; try (done || lia).
  - exists v, pt, mn, mx, prior. cbn. repeat split; (done || lia).
Qed.

Lemma values_of_init (name value pt mn mx prior : pyval) (p : obj) :
  init name value pt mn mx prior = inr p → ∃ vals, values p = inr vals.
Proof.
  intros H. apply init_inr in H as (v' & pt' & mn' & mx' & s & _ & _ & _ & ->).
  eexists. apply values_of_built.
Qed.

(** X16: for an attribute other than [epf], [params] and [dict],
    [Parameters.__setattr__] raises [TypeError] and leaves the instance as
    it was unless the value is a list or a tuple of two to five entries.
    So a single string or number is always refused: [Parameter] would be
    called without its [ptype]. *)
Theorem setattr_needs_two_to_five (self : parameters) (item : string)
    (v : value) :
  ¬ special item →
  (∀ l, v = Py (PyList l) ∨ v = Py (PyTuple l) → ¬ (2 ≤ length l ≤ 5)%nat) →
  setattr self item v = (self, inl TypeError).
Proof.
  intros Hs Hv. rewrite setattr_plain by done.
  destruct v as [[| | | | |l|l]|m]; try reflexivity; cbn [as_list mbind res_bind];
    specialize (Hv l);
    (destruct l as [|a [|b [|c [|d [|e [|x l]]]]]]; try reflexivity;
     exfalso; (apply Hv; [auto|cbn; lia])).
Qed.

(** X17: when [self.dict] is a dictionary, a [__setattr__] that raises
    has changed nothing. *)
Theorem setattr_failure_keeps_instance (self : parameters) (item : string)
    (v : value) (m : gmap string (list pyval)) (e : exn) :
  dict self = PyDict m →
  (setattr self item v).2 = inl e →
  (setattr self item v).1 = self.
Proof.
  intros Hd. unfold setattr.
  repeat (case_bool_decide; [done|]).
  destruct (as_list v ≫= new_Parameter item) as [e'|p] eqn:Hp; [done|].
  apply res_bind_inr in Hp as (l & _ & Hp).
  apply new_Parameter_inr in Hp as (a & pt & mn & mx & prior & _ & _ & _ & Hp).
  apply values_of_init in Hp as [vals ->]. cbn zeta. by rewrite Hd.
Qed.

(** X18: a [__setattr__] that returns, for an attribute other than
    [epf], [params] and [dict], got a list or tuple of two to five
    entries and found a dictionary in [self.dict]; it stores the new
    [Parameter], whose ptype is one of the four allowed, under the
    attribute, and its values without the name in [self.dict]: the
    entries given without those that are [None], when the first entry is
    not itself a list.  Nothing else changes. *)
Theorem setattr_records_values (self : parameters) (item : string)
    (v : value) (self' : parameters) :
  ¬ special item →
  setattr self item v = (self', inr ()) →
  ∃ l m p vals,
    (v = Py (PyList l) ∨ v = Py (PyTuple l)) ∧ (2 ≤ length l ≤ 5)%nat ∧
    dict self = PyDict m ∧
    self' = {| attrs := <[item := p]> (attrs self); params := params self;
               dict := PyDict (<[item := vals]> m); epf := epf self |} ∧
    values p = inr (PyStr item :: vals) ∧
    (∃ s, ptype p = inr (PyStr s) ∧ s ∈ ptypes) ∧
    ((∀ x, head l ≠ Some (PyList x)) → vals = List.filter not_none l).
Proof.
  intros Hs. rewrite setattr_plain by done.
  destruct (as_list v ≫= new_Parameter item) as [e|p] eqn:Hp; [done|].
  apply res_bind_inr in Hp as (l & Hl & Hp).
  apply new_Parameter_inr in Hp
    as (a & pt & mn & mx & prior & Htake & Hlen & Hfilter & Hp).
  apply init_inr in Hp as (v' & pt' & mn' & mx' & s & Hun & -> & Hin & ->).
  rewrite values_of_built. cbn zeta.
  destruct (dict self) as [x|m] eqn:Hd; [done|]. intros [= <-].
  exists l, m. eexists. eexists.
  split; [|split; [done|split; [done|split; [reflexivity|]]]].
  { destruct v as [[| | | | |l'|l']|m']; try discriminate;
      cbn [as_list] in Hl; injection Hl as <-; auto; cbn in Hlen; lia. }
  split; [reflexivity|]. split.
  { exists s. split; [|done]. unfold ptype.
    rewrite lookup_insert_ne by done. by rewrite lookup_insert_eq. }
  intros Hhead. cbn [List.filter is_none negb drop]. rewrite Hfilter.
  assert (head l = Some a) as Ha.
  { rewrite Htake. destruct (length l) as [|n]; [lia|]. reflexivity. }
  destruct a as [| | | | |x|]; try (destruct Hun as (-> & <- & -> & ->); done).
  by destruct (Hhead x).
Qed.

(** ** Runs on the samples *)

Example read_sample :
  EPF.read EPF.isspace EPF.hash EPF.space SampleEPF.lines
  = [EPF.code_points "rp 0.1 'free'"; EPF.code_points "rp 0.2 'fixed'"].
Proof. vm_compute. reflexivity. Qed.

Example params_sample :
  EPF.params EPF.isspace EPF.hash EPF.space (fun _ => None) (fun tok => tok)
             SampleEPF.lines
  = inr {[EPF.code_points "rp"
          := [EPF.code_points "0.2"; EPF.code_points "'fixed'"]]}.
Proof. vm_compute. reflexivity. Qed.

Example setattr_sample :
  dict (setattr SampleEPF.instance "rp"
          (Py (PyTuple [PyFloat 1; PyStr "free"; PyNone; PyInt 1]))).1
  = PyDict (<["rp" := [PyFloat 1; PyStr "free"; PyInt 1]]>
              {["per" := [PyFloat 3; PyStr "fixed"]]}) ∧
  setattr SampleEPF.instance "rp" (Py (PyStr "free"))
  = (SampleEPF.instance, inl TypeError) ∧
  setattr SampleEPF.instance "rp" (Py (PyList [PyFloat 1; PyBool true]))
  = (SampleEPF.instance, inl ValueError).
Proof. repeat split; vm_compute; reflexivity. Qed.

Lemma f277_mask_geometry_witness :
  ∃ f anchors,
    outcome (f277_mask Sample.image_filtering Sample.one_anchor 5)
      = inr (f, anchors) ∧
    (nrows f = 5%nat ∧ ncols f = 2%nat) ∧
    StronglySorted (fun p q : Z * Z => p.1 < q.1) anchors.
Proof.
  eexists _, _. split; [reflexivity|].
  edestruct (f277_mask_geometry Sample.image_filtering Sample.one_anchor 5)
    as (Hshape & _ & Hsorted & _); [reflexivity|].
  split; [exact Hshape | exact Hsorted].
Defined.

Lemma method_one_needs_same_columns_witness :
  sci_cols Sample.one_anchor = f277_cols Sample.one_anchor ∧
  sci_rows Sample.one_anchor ≠ 0%nat ∧ f277_rows Sample.one_anchor ≠ 0%nat.
Proof.
  apply (method_one_needs_same_columns Sample.image_filtering Sample.polyfit
           Sample.write_csv Sample.one_anchor 0 false Sample.one_anchor_table).
  vm_compute. reflexivity.
Defined.

Lemma peak_tables_shape_witness :
  (sci_cols Sample.two_orders ≤ f277_cols Sample.two_orders)%nat ∧
  StronglySorted Z.lt [0; 1].
Proof.
  destruct (peak_tables_shape Sample.find_peaks Sample.cosmicray_lacosmic
              Sample.two_orders [0; 1] [(5, 20); (5, 20)] [0; 1; 2]
              [[0; 0; 0; 0; 0; 0]; [0; 0; 0; 0; 0; 0]; [42; 54; 66; 78; 0; 0]])
    as (Hcols & _ & _ & _ & _ & Hsorted & _); [vm_compute; reflexivity|].
  split; [exact Hcols | exact Hsorted].
Defined.

Lemma method_two_needs_calibration_witness :
  (sci_cols Sample.two_orders ≤ f277_cols Sample.two_orders)%nat ∧
  ∃ c a b, (c < sci_cols Sample.two_orders)%nat ∧ a ≠ 0%nat ∧
    Sample.find_peaks
      (column (Array2 (f277_rows Sample.two_orders)
                      (f277_cols Sample.two_orders)
                      (f277_sum Sample.two_orders)) c) 100000 10 = [a; b].
Proof.
  apply (method_two_needs_calibration Sample.polyfit Sample.find_peaks
           Sample.cosmicray_lacosmic Sample.write_csv Sample.two_orders 0
           false Sample.two_orders_table).
  vm_compute. reflexivity.
Defined.

Lemma cleanlines_are_normal_witness :
  let line := EPF.code_points "rp 0.1 'free'" in
  EPF.split EPF.isspace line ≠ [] ∧
  line = EPF.join EPF.space (EPF.split EPF.isspace line) ∧
  (EPF.hash ∉ line) ∧
  Forall (EPF.token EPF.isspace) (EPF.split EPF.isspace line).
Proof.
  apply (cleanlines_are_normal EPF.isspace EPF.hash EPF.space eq_refl eq_refl
           SampleEPF.lines).
  vm_compute. left.
Defined.

Lemma read_idempotent_witness :
  EPF.read EPF.isspace EPF.hash EPF.space
    (EPF.read EPF.isspace EPF.hash EPF.space SampleEPF.lines)
  = EPF.read EPF.isspace EPF.hash EPF.space SampleEPF.lines.
Proof.
  apply (read_idempotent EPF.isspace EPF.hash EPF.space); reflexivity.
Defined.

Lemma clean_line_keeps_tokens_witness :
  let l := EPF.code_points "  rp   0.1  'free'  # radius " in
  EPF.split EPF.isspace (EPF.clean_line EPF.isspace EPF.hash EPF.space l)
  = EPF.split EPF.isspace (EPF.before_hash EPF.hash l) ∧
  (EPF.clean_line EPF.isspace EPF.hash EPF.space l = []
   ↔ EPF.split EPF.isspace (EPF.before_hash EPF.hash l) = []).
Proof.
  apply (clean_line_keeps_tokens EPF.isspace EPF.hash EPF.space); reflexivity.
Defined.


Lemma values_after_init_witness :
  ∃ v' pt' mn' mx',
    values (<["prior" := PyStr "U"]> (<["_ptype" := PyStr "free"]>
             (<["mx" := PyInt 1]> (<["mn" := PyInt 0]>
             (<["value" := PyFloat 1]> (<["name" := PyStr "rp"]> ∅))))))
    = inr (List.filter not_none [PyStr "rp"; v'; pt'; mn'; mx'; PyStr "U"]) ∧
    ([PyFloat 1; PyStr "free"; PyInt 0; PyInt 1] = [v']
       ∧ pt' = PyNone ∧ mn' = PyNone ∧ mx' = PyNone
     ∨ [PyFloat 1; PyStr "free"; PyInt 0; PyInt 1] = [v'; pt'; mn'; mx']).
Proof.
  apply (values_after_init (PyStr "rp")
           (PyList [PyFloat 1; PyStr "free"; PyInt 0; PyInt 1])
           PyNone PyNone PyNone (PyStr "U")).
  vm_compute. reflexivity.
Defined.

Lemma setattr_needs_two_to_five_witness :
  setattr SampleEPF.instance "rp" (Py (PyFloat 1))
  = (SampleEPF.instance, inl TypeError).
Proof.
  apply (setattr_needs_two_to_five SampleEPF.instance "rp" (Py (PyFloat 1))).
  - unfold special. intros [?|[?|?]]; discriminate.
  - intros l [?|?]; discriminate.
Defined.

Lemma setattr_failure_keeps_instance_witness :
  (setattr SampleEPF.instance "rp" (Py (PyList [PyFloat 1; PyStr "fre"]))).1
  = SampleEPF.instance.
Proof.
  apply (setattr_failure_keeps_instance SampleEPF.instance "rp"
           (Py (PyList [PyFloat 1; PyStr "fre"]))
           {["per" := [PyFloat 3; PyStr "fixed"]]} ValueError).
  - reflexivity.
  - vm_compute. reflexivity.
Defined.

Lemma setattr_records_values_witness :
  let v := Py (PyList [PyFloat 1; PyStr "free"; PyInt 0; PyInt 1]) in
  let self' := (setattr SampleEPF.instance "rp" v).1 in
  ∃ l m p vals,
    (v = Py (PyList l) ∨ v = Py (PyTuple l)) ∧ (2 ≤ length l ≤ 5)%nat ∧
    dict SampleEPF.instance = PyDict m ∧
    self' = {| attrs := <["rp" := p]> (attrs SampleEPF.instance);
               params := params SampleEPF.instance;
               dict := PyDict (<["rp" := vals]> m);
               epf := epf SampleEPF.instance |} ∧
    values p = inr (PyStr "rp" :: vals) ∧
    (∃ s, ptype p = inr (PyStr s) ∧ s ∈ ptypes) ∧
    ((∀ x, head l ≠ Some (PyList x)) → vals = List.filter not_none l).
Proof.
  apply (setattr_records_values SampleEPF.instance "rp").
  - unfold special. intros [?|[?|?]]; discriminate.
  - vm_compute. reflexivity.
Defined.
